(** * lmatools: examples/lasso/cell-lasso-stats_limited.py

    A shallow embedding of the analysis script: the attribute-range filter
    [gen_filtered_time_series] and the unpacking of its result, the flash
    centroid plotter, the summary series, the flash-size statistics writer
    [write_size_stat_data], the profile normalisation and output block, and
    the grid-subset reporting pass [plot_lasso_grid_subset].

    numpy arrays are objects on a heap (a list of buffers, addressed by
    position), so that views, in-place updates and copies are told apart.
    Numeric values are IEEE-754 values ([spec_float]), compared with the
    IEEE comparison, for which NaN is unordered. A structured array records
    which of its fields are single precision: numpy compares such a field
    with a Python float in single precision, the float being rounded. *)

From Stdlib Require Import ZArith List String.
From Stdlib Require Import Floats.SpecFloat.
From stdpp Require Import gmap strings list fin_maps pretty.

Local Open Scope string_scope.
Local Open Scope list_scope.

(** ** Python exceptions and results *)

Module Py.

Inductive exn : Set :=
| IndexError
| ValueError
| KeyError
| TypeError
| AssertionError.

Inductive result (A : Type) : Type :=
| Ok (a : A)
| Raise (e : exn).

Arguments Ok {A} a.
Arguments Raise {A} e.

(** [seq[0]] on a Python sequence. *)
Definition getitem0 {A} (seq : list A) : result A :=
  match seq with
  | [] => Raise IndexError
  | x :: _ => Ok x
  end.

(** [sep.join(parts)]. *)
Fixpoint join (sep : string) (parts : list string) : string :=
  match parts with
  | [] => ""
  | [p] => p
  | p :: rest => (p ++ sep ++ join sep rest)%string
  end.

End Py.

(** ** numpy: values, structured arrays, the heap of buffers *)

Module Np.
Import Py.

Abbreviation float := spec_float.

(** The double [m * 2^e], rounded to nearest. *)
Definition f64 (m e : Z) : float := binary_normalize 53 1024 m e false.

(** Arithmetic on doubles. *)
Definition fadd : float → float → float := SFadd 53 1024.
Definition fsub : float → float → float := SFsub 53 1024.
Definition fdiv : float → float → float := SFdiv 53 1024.

(** Elementwise comparisons of numpy are the IEEE ones: every comparison
    with a NaN operand is false. *)
Definition greater_equal (x y : float) : bool :=
  match SFcompare x y with
  | Some Gt | Some Eq => true
  | _ => false
  end.

Definition less_equal (x y : float) : bool :=
  match SFcompare x y with
  | Some Lt | Some Eq => true
  | _ => false
  end.

Definition greater (x y : float) : bool :=
  match SFcompare x y with
  | Some Gt => true
  | _ => false
  end.

Definition equal (x y : float) : bool :=
  match SFcompare x y with
  | Some Eq => true
  | _ => false
  end.

Definition isnan (x : float) : bool :=
  match x with
  | S754_nan => true
  | _ => false
  end.

(** The double nearest to [x] among the single-precision numbers. *)
Definition to_single (x : float) : float :=
  match x with
  | S754_finite s m e =>
      match binary_round 24 128 s m e with
      | S754_finite s' m' e' =>
          binary_normalize 53 1024 (cond_Zopp s' (Zpos m')) e' s'
      | y => y
      end
  | _ => x
  end.

(** A Python float counts as a single-precision scalar when it lies
    strictly between -3.4e38 and 3.4e38 (numpy's [min_scalar_type]). *)
Definition fits_single (x : float) : bool :=
  greater x (f64 (-339999999999999996123846586046231871488) 0)
  && greater (f64 339999999999999996123846586046231871488 0) x.

(** Comparing an array with a Python float: with a single-precision array
    and a scalar that fits, both are compared in single precision, the
    scalar being rounded; otherwise the comparison is made in double
    precision, where the values of the array are exact. *)
Definition cast_bound (single : bool) (x : float) : float :=
  if single && fits_single x then to_single x else x.

(** A one-dimensional structured array: the field names of its dtype, in
    order, and its records, each holding one value per field. *)
Record recarray : Type := RecArray {
  dtype_names : list string;
  records : list (list float)
}.

(** Position of field [k] in the dtype. *)
Fixpoint field_index (k : string) (names : list string) : option nat :=
  match names with
  | [] => None
  | n :: rest =>
      if decide (k = n) then Some 0
      else S <$> field_index k rest
  end.

(** The value of field [k] in record [r] of an array with fields [names]. *)
Definition field (names : list string) (k : string) (r : list float) : float :=
  match field_index k names with
  | Some i => nth i r S754_nan
  | None => S754_nan
  end.

(** [a[k]] read out as a column. *)
Definition column (k : string) (a : recarray) : list float :=
  map (field (dtype_names a) k) (records a).

(** [xs[mask]] with a boolean mask of the same length. *)
Fixpoint mask_select {A} (mask : list bool) (xs : list A) : list A :=
  match mask, xs with
  | b :: mask', x :: xs' =>
      if b then x :: mask_select mask' xs' else mask_select mask' xs'
  | _, _ => []
  end.

(** The objects on the heap: a structured array, with the names of those
    of its fields whose dtype is single precision (['f4']), every other
    field being compared as a double; or a boolean mask. A value of a
    single-precision field is held as the double it converts to. *)
Inductive ndarray : Type :=
| NdArr (a : recarray) (single : list string)
| NdBool (m : list bool).

(** A structured array without single-precision fields. *)
Abbreviation NdRec a := (NdArr a []).

(** Addresses and the heap of buffers. *)
Abbreviation loc := nat.
Abbreviation heap := (list ndarray).

(** Computations on the heap that may raise. *)
Definition M (A : Type) : Type := heap → result (A * heap).

#[global] Instance M_ret : MRet M := λ A a h, Ok (a, h).

#[global] Instance M_bind : MBind M := λ A B f m h,
  match m h with
  | Ok (a, h') => f a h'
  | Raise e => Raise e
  end.

Definition raise {A} (e : exn) : M A := λ _, Raise e.

(** A new buffer gets the next free address. *)
Definition alloc (o : ndarray) : M loc := λ h, Ok (length h, h ++ [o]).

Definition load (l : loc) : M ndarray := λ h,
  match h !! l with
  | Some o => Ok (o, h)
  | None => Raise TypeError
  end.

Definition store (l : loc) (o : ndarray) : M unit := λ h,
  Ok (tt, <[l := o]> h).

Definition as_rec (l : loc) : M recarray :=
  o ← load l;
  match o with
  | NdArr a _ => mret a
  | NdBool _ => raise TypeError
  end.

Definition as_bool (l : loc) : M (list bool) :=
  o ← load l;
  match o with
  | NdBool m => mret m
  | NdArr _ _ => raise TypeError
  end.

(** The single-precision fields of the array at [l]. *)
Definition single_fields (l : loc) : M (list string) :=
  o ← load l;
  match o with
  | NdArr _ single => mret single
  | NdBool _ => raise TypeError
  end.

(** [a.shape] of a one-dimensional array. *)
Definition shape (l : loc) : M nat :=
  a ← as_rec l; mret (length (records a)).

(** [a.dtype.names]. *)
Definition names (l : loc) : M (list string) :=
  a ← as_rec l; mret (dtype_names a).

(** [np.ones(shape, dtype=bool)]: a new buffer. *)
Definition ones (n : nat) : M loc := alloc (NdBool (replicate n true)).

(** [a[k]] is a view: it names the buffer of [a], nothing is allocated. *)
Definition view : Type := loc * string.

Definition getitem_field (l : loc) (k : string) : M view :=
  a ← as_rec l;
  if decide (k ∈ dtype_names a) then mret (l, k) else raise ValueError.

Definition read_view (v : view) : M (list float) :=
  a ← as_rec v.1; mret (column v.2 a).

(** The scalar that a comparison of the field [k] of an array with the
    Python float [x] really compares with. *)
Definition compared (single : list string) (k : string) (x : float) : float :=
  cast_bound (bool_decide (k ∈ single)) x.

(** [v >= x] and [v <= x] against a Python float: the scalar is brought to
    the type of the comparison, and the result is a new boolean buffer. *)
Definition ge_scalar (v : view) (x : float) : M loc :=
  c ← read_view v;
  single ← single_fields v.1;
  alloc (NdBool (map (λ y, greater_equal y (compared single v.2 x)) c)).

Definition le_scalar (v : view) (x : float) : M loc :=
  c ← read_view v;
  single ← single_fields v.1;
  alloc (NdBool (map (λ y, less_equal y (compared single v.2 x)) c)).

(** [m1 & m2]: a new buffer; the shapes must agree. *)
Definition and_ (l1 l2 : loc) : M loc :=
  m1 ← as_bool l1;
  m2 ← as_bool l2;
  if decide (length m1 = length m2)
  then alloc (NdBool (zip_with andb m1 m2))
  else raise ValueError.

(** [m1 &= m2]: the buffer of [m1] is updated in place. *)
Definition iand (l1 l2 : loc) : M unit :=
  m1 ← as_bool l1;
  m2 ← as_bool l2;
  if decide (length m1 = length m2)
  then store l1 (NdBool (zip_with andb m1 m2))
  else raise ValueError.

(** [a[mask]]: boolean-mask indexing copies the selected records into a
    new buffer. *)
Definition getitem_mask (l lm : loc) : M loc :=
  a ← as_rec l;
  single ← single_fields l;
  m ← as_bool lm;
  if decide (length m = length (records a))
  then alloc (NdArr (RecArray (dtype_names a) (mask_select m (records a)))
                single)
  else raise IndexError.

(** [for x in xs: body(x)]. *)
Fixpoint for_ {A} (xs : list A) (body : A → M unit) : M unit :=
  match xs with
  | [] => mret tt
  | x :: rest => _ ← body x; for_ rest body
  end.

(** [if c: body]. *)
Definition when (c : bool) (body : M unit) : M unit :=
  if c then body else mret tt.

(** A generator [for x in xs: yield f(x)], run to its end. *)
Fixpoint generate {A B} (xs : list A) (f : A → M B) : M (list B) :=
  match xs with
  | [] => mret []
  | x :: rest => y ← f x; ys ← generate rest f; mret (y :: ys)
  end.

End Np.

(** ** The attribute-range filter (lines 68-80) *)

Module Filter.
Import Py Np.

(** One pass of the loop over [bounds.items()]. *)
Definition apply_bound (events flashes ev_good fl_good : loc)
    (item : string * (float * float)) : M unit :=
  let '(k, (v_min, v_max)) := item in
  ev_names ← names events;
  _ ← when (bool_decide (k ∈ ev_names))
        (ev_k ← getitem_field events k;
         lo ← ge_scalar ev_k v_min;
         ev_k' ← getitem_field events k;
         hi ← le_scalar ev_k' v_max;
         both ← and_ lo hi;
         iand ev_good both);
  fl_names ← names flashes;
  when (bool_decide (k ∈ fl_names))
    (fl_k ← getitem_field flashes k;
     lo ← ge_scalar fl_k v_min;
     fl_k' ← getitem_field flashes k;
     hi ← le_scalar fl_k' v_max;
     both ← and_ lo hi;
     iand fl_good both).

(** The body of the generator for one bin. *)
Definition filter_bin (bounds : gmap string (float * float))
    (bin : loc * loc) : M (loc * loc) :=
  let '(events, flashes) := bin in
  ev_shape ← shape events;
  ev_good ← ones ev_shape;
  fl_shape ← shape flashes;
  fl_good ← ones fl_shape;
  _ ← for_ (map_to_list bounds) (apply_bound events flashes ev_good fl_good);
  events_filt ← getitem_mask events ev_good;
  flashes_filt ← getitem_mask flashes fl_good;
  mret (events_filt, flashes_filt).

(** The generator, run to its end over [zip(events_series, flashes_series)],
    which pairs the two series up to the shorter one. *)
Definition gen_filtered_time_series (events_series flashes_series : list loc)
    (bounds : gmap string (float * float)) : M (list (loc * loc)) :=
  generate (zip events_series flashes_series) (filter_bin bounds).

(** Line 84: the yielded pairs are transposed and unpacked into the two
    filtered series; with no pair there is nothing to unpack. *)
Definition unpack_series (filtered : list (loc * loc))
    : result (list loc * list loc) :=
  match filtered with
  | [] => Raise ValueError
  | _ :: _ => Ok (map fst filtered, map snd filtered)
  end.

(** The bounds of the script (line 82): area between 0.0 and 1.0e10. *)
Definition bounds : gmap string (float * float) :=
  {[ "area" := (S754_zero false, f64 10000000000 0) ]}.

End Filter.

(** ** Profile normalisation and output (lines 181-208) *)

Module Profiles.
Import Py Np.

Definition sixty : float := f64 60 0.

(** Line 181: [(t_edges_seconds[1:] - t_edges_seconds[:-1])/60.0]. *)
Definition durations_min (t_edges_seconds : list float) : list float :=
  map (λ d, fdiv d sixty)
      (zip_with fsub (tail t_edges_seconds) (removelast t_edges_seconds)).

(** Modelled from the spec: [FractalLengthProfileCalculator.normalize_profiles]
    lives in lmatools.lasso.length_stats, which is not among the sources.
    Spec 4.5: it divides each bin's accumulated profile value by the
    corresponding time-bin duration (in minutes), producing a per-minute
    rate, the profile sequence being aligned with the duration sequence. *)
Definition normalize_profiles (profiles : list (list float))
    (durations : list float) : list (list float) :=
  zip_with (λ profile duration, map (λ v, fdiv v duration) profile)
           profiles durations.

Inductive figure : Set :=
| IC_fig
| CG_fig.

(** What the block hands to the writers. *)
Inductive output : Type :=
| WriteProfileData (base_date : Z) (t_edges_seconds : list float)
    (outfile_base : string) (norm_profiles : list (list float))
    (partition_kind : string)
| SaveFig (fig : figure) (path : string).

(** Lines 197-208. *)
Definition write_profiles (flashes_series : list recarray) (base_date : Z)
    (t_edges_seconds : list float) (outfile_base : string)
    (IC_norm_profiles CG_norm_profiles : list (list float))
    : result (list output) :=
  match getitem0 flashes_series with
  | Raise e => Raise e
  | Ok first =>
      if bool_decide ("CG" ∈ dtype_names first) then
        Ok [ WriteProfileData base_date t_edges_seconds outfile_base
               IC_norm_profiles "IC";
             WriteProfileData base_date t_edges_seconds outfile_base
               CG_norm_profiles "CG";
             SaveFig CG_fig (outfile_base ++ "_CG.pdf");
             SaveFig IC_fig (outfile_base ++ "_IC.pdf") ]
      else
        Ok [ WriteProfileData base_date t_edges_seconds outfile_base
               IC_norm_profiles "total";
             SaveFig IC_fig (outfile_base ++ "_total.pdf") ]
  end.

(** Lines 181-208, from the per-bin profiles to the outputs. *)
Definition profile_block (flashes_series : list recarray) (base_date : Z)
    (t_edges_seconds : list float) (outfile_base : string)
    (IC_profiles CG_profiles : list (list float)) : result (list output) :=
  let durations := durations_min t_edges_seconds in
  let IC_norm_profiles := normalize_profiles IC_profiles durations in
  let CG_norm_profiles := normalize_profiles CG_profiles durations in
  write_profiles flashes_series base_date t_edges_seconds outfile_base
    IC_norm_profiles CG_norm_profiles.

End Profiles.

(** ** From the filtered series to the profile output *)

Module Pipeline.
Import Py Np Filter Profiles.

(** A step that only computes a result, or raises. *)
Definition lift {A} (r : result A) : M A := λ h,
  match r with
  | Ok a => Ok (a, h)
  | Raise e => Raise e
  end.

(** Lines 83-84: the generator is run and its pairs are unpacked into the
    two filtered series, which take the names of the source series. *)
Definition filtered_series (events_series flashes_series : list loc)
    (bounds : gmap string (float * float)) : M (list loc * list loc) :=
  filtered_time_series ← gen_filtered_time_series events_series flashes_series
                           bounds;
  lift (unpack_series filtered_time_series).

(** The arrays behind a series of references. *)
Definition deref (series : list loc) : M (list recarray) :=
  generate series as_rec.

(** Lines 83-84 followed by lines 197-208: the series that the block
    indexes is the filtered flash series. The statements in between do not
    rebind it; the normalised profiles they compute are taken as given. *)
Definition filtered_profiles (events_series flashes_series : list loc)
    (bounds : gmap string (float * float)) (base_date : Z)
    (t_edges_seconds : list float) (outfile_base : string)
    (IC_norm_profiles CG_norm_profiles : list (list float))
    : M (list output) :=
  filtered ← filtered_series events_series flashes_series bounds;
  flashes ← deref filtered.2;
  lift (write_profiles flashes base_date t_edges_seconds outfile_base
          IC_norm_profiles CG_norm_profiles).

End Pipeline.

(** ** The flash-size statistics writer (lines 157-169) *)

Module SizeStats.
Import Py.

Section Writer.

(** The values held by a statistics record, and how [str.format] renders
    one of them. *)
Variable value : Type.
Variable format : value → string.

(** [stats[k]] on one record of the structured array. *)
Definition getitem (stats : gmap string value) (k : string) : result value :=
  match stats !! k with
  | Some v => Ok v
  | None => Raise ValueError
  end.

Definition stat_keys : list string :=
  [ "start_isoformat"; "end_isoformat"; "number"; "mean"; "variance";
    "skewness"; "kurtosis"; "energy"; "energy_per_flash" ].

Definition header : string :=
  "# start_isoformat, end_isoformat, number, mean, variance, skewness, kurtosis, energy, energy_per_flash
".

(** [[stats[k] for k in stat_keys]]. *)
Fixpoint stat_vals (stats : gmap string value) (keys : list string)
    : result (list value) :=
  match keys with
  | [] => Ok []
  | k :: rest =>
      match getitem stats k with
      | Raise e => Raise e
      | Ok v =>
          match stat_vals stats rest with
          | Raise e => Raise e
          | Ok vs => Ok (v :: vs)
          end
      end
  end.

(** The line template, nine positional slots separated by a comma and a
    space and closed by a newline, filled with the values in order; further
    values are ignored, a missing one is an IndexError. *)
Definition line_template (vals : list value) : result string :=
  match vals with
  | v0 :: v1 :: v2 :: v3 :: v4 :: v5 :: v6 :: v7 :: v8 :: _ =>
      Ok (format v0 ++ ", " ++ format v1 ++ ", " ++ format v2 ++ ", "
          ++ format v3 ++ ", " ++ format v4 ++ ", " ++ format v5 ++ ", "
          ++ format v6 ++ ", " ++ format v7 ++ ", " ++ format v8 ++ "
")%string
  | _ => Raise IndexError
  end.

(** The loop over the records: the strings passed to [f.write], in order. *)
Fixpoint write_rows (size_stats : list (gmap string value))
    : result (list string) :=
  match size_stats with
  | [] => Ok []
  | stats :: rest =>
      match stat_vals stats stat_keys with
      | Raise e => Raise e
      | Ok vals =>
          match line_template vals with
          | Raise e => Raise e
          | Ok line =>
              match write_rows rest with
              | Raise e => Raise e
              | Ok lines => Ok (line :: lines)
              end
          end
      end
  end.

(** The file written by [write_size_stat_data], as its sequence of writes. *)
Definition write_size_stat_data (size_stats : list (gmap string value))
    : result (list string) :=
  match write_rows size_stats with
  | Raise e => Raise e
  | Ok lines => Ok (header :: lines)
  end.

End Writer.

End SizeStats.

(** ** NetCDF grid processing (lines 280-329 and 361-365) *)

Module Grid.
Import Py Np.

Definition one : float := f64 1 0.
Definition two : float := f64 2 0.
Definition zero : float := S754_zero false.

(** Storing into a field of dtype ['f4'] rounds to single precision. *)
Definition f4 (x : float) : float :=
  match x with
  | S754_finite s m e => binary_round 24 128 s m e
  | _ => x
  end.

(** A two-dimensional array: its shape and its buffer in row-major order. *)
Record ndarray2 : Type := NdArray2 {
  shape2 : nat * nat;
  flat : list float
}.

(** One element of the structured array [a] of the function. *)
Record cell : Type := Cell {
  cell_t : float;
  cell_lon : float;
  cell_lat : float;
  cell_value : float
}.

(** One item yielded by the grid collection: [(t, xedge, yedge, data)]. *)
Record step : Type := Step {
  step_t : Z;
  step_xedge : list float;
  step_yedge : list float;
  step_data : ndarray2
}.

(** [(edge[1:] + edge[:-1])/2.0]. *)
Definition centers (edge : list float) : list float :=
  map (λ s, fdiv s two) (zip_with fadd (tail edge) (removelast edge)).

(** [np.meshgrid(x, y)], each mesh flattened in row-major order; Y moves
    along the zeroth index, X along the first. *)
Definition xmesh_flat (x y : list float) : list float :=
  concat (map (λ _, x) y).

Definition ymesh_flat (x y : list float) : list float :=
  concat (map (λ yi, map (λ _, yi) x) y).

Definition mesh_shape (x y : list float) : nat * nat := (length y, length x).

Fixpoint fill (tsec : float) (lon lat val : list float) : list cell :=
  match lon, lat, val with
  | lo :: lon', la :: lat', v :: val' =>
      Cell (f4 tsec) (f4 lo) (f4 la) v :: fill tsec lon' lat' val'
  | _, _, _ => []
  end.

(** Modelled from the spec: the binning of timestamped records is done by
    [TimeSeriesPolygonFlashSubset] (lmatools.lasso.cell_lasso_timeseries),
    which is not among the sources. Spec 4.2: the half-open range
    [t_start, t_end) is cut into consecutive bins with edges at
    [t_start + k*bin_width]; [assign] returns the index of the bin of a
    timestamp, or the out-of-range sentinel. *)
Definition assign (t_start t_end bin_width t : Z) : option Z :=
  if (t_start <=? t)%Z && (t <? t_end)%Z
  then Some ((t - t_start) / bin_width)%Z
  else None.

Section Report.

(** The analysis window and the base date of the run, as timestamps. *)
Variables t_start t_end basedate : Z.

(** Collaborators outside the script: the rendering of dates and numbers,
    the conversion of a time difference to seconds, the lasso test of
    [grid_lassos.filter_mask] on one cell, the reductions of numpy on a
    non-empty array and the percentile score of scipy. *)
Variable isoformat : Z → string.
Variable str_datetime : Z → string.
Variable str_float : float → string.
Variable total_seconds : Z → float.
Variable in_lasso : cell → bool.
Variable reduce_max : list float → float.
Variable reduce_sum : list float → float.
Variable percentile : list float → Z → float.

Definition filter_mask (a : list cell) : list bool := map in_lasso a.

(** [v.max()]: the reduction has no identity on an empty array. *)
Definition amax (v : list float) : result float :=
  match v with
  | [] => Raise ValueError
  | _ :: _ => Ok (reduce_max v)
  end.

Definition scoreatpercentile (v : list float) (per : list Z) : list float :=
  map (percentile v) per.

(** The structured array [a] (lines 287-302). *)
Definition cells (t : Z) (xedge yedge : list float) (data : ndarray2)
    : list cell :=
  let x := centers xedge in
  let y := centers yedge in
  fill (fadd (total_seconds (t - basedate)) one)
       (xmesh_flat x y) (ymesh_flat x y) (flat data).

(** [a[good]] and [a[good & nonzero]] (lines 304-307). *)
Definition filtered (a : list cell) : list cell :=
  mask_select (filter_mask a) a.

Definition nonzero_filtered (a : list cell) : list cell :=
  let nonzero := map (λ c, greater (cell_value c) zero) a in
  let good := filter_mask a in
  mask_select (zip_with andb good nonzero) a.

(** The assertion of line 292: the meshes and the data have one shape. *)
Definition shapes_agree (xedge yedge : list float) (data : ndarray2) : bool :=
  bool_decide (mesh_shape (centers xedge) (centers yedge) = shape2 data).

(** The guard of line 362: [(t >= t_start) & (t <= t_end)]. *)
Definition in_window (t : Z) : bool := (t >=? t_start)%Z && (t <=? t_end)%Z.

(** The fields of the CSV row (lines 322-328). *)
Definition row (t : Z) (a : list cell) : result (list string) :=
  if (0 <? length (nonzero_filtered a))%nat then
    let v := map cell_value (filtered a) in
    let vnz := map cell_value (nonzero_filtered a) in
    let percentiles := scoreatpercentile vnz [5; 50; 95]%Z in
    match amax v with
    | Raise e => Raise e
    | Ok vmax =>
        Ok ([isoformat t; str_float vmax; str_float (reduce_sum v)]
            ++ map str_float percentiles)
    end
  else
    Ok [str_datetime t; "0"; "0"; "0.0"; "0.0"; "0.0"].

(** [plot_lasso_grid_subset]: the figure calls only draw; what is kept
    here is what reaches [datalog]. *)
Definition plot_lasso_grid_subset (datalog : list string) (t : Z)
    (xedge yedge : list float) (data : ndarray2) : result (list string) :=
  if shapes_agree xedge yedge data then
    match row t (cells t xedge yedge data) with
    | Raise e => Raise e
    | Ok fields => Ok (datalog ++ [(join ", " fields ++ "
")%string])
    end
  else Raise AssertionError.

(** The loop over the grid collection (lines 361-365). *)
Fixpoint grid_loop (GC : list step) (datalog : list string)
    : result (list string) :=
  match GC with
  | [] => Ok datalog
  | s :: rest =>
      if in_window (step_t s) then
        match plot_lasso_grid_subset datalog (step_t s) (step_xedge s)
                (step_yedge s) (step_data s) with
        | Raise e => Raise e
        | Ok datalog' => grid_loop rest datalog'
        end
      else grid_loop rest datalog
  end.

Definition datalog_header : string :=
  "time (ISO), max count per grid box, sum of all grid boxes, 5th percentile, 50th percentile, 95th percentile
".

(** The CSV file of one field: the header, then the loop (lines 354-367). *)
Definition grid_report (GC : list step) : result (list string) :=
  grid_loop GC [datalog_header].

End Report.

End Grid.

(** ** What the spec says of the filter, and the invariant of its loop *)

Module FilterSpec.
Import Py Np Filter.

(** A value within its [(min, max)] range, both ends compared as the code
    compares them. *)
Definition in_range (v_min v_max x : float) : bool :=
  greater_equal x v_min && less_equal x v_max.

(** A retained record: every bounded field that the record type has lies
    within its bounds, each bound being the scalar that the comparison with
    that field compares with ([single] names the single-precision
    fields). *)
Definition keeps (bounds : gmap string (float * float)) (single : list string)
    (names : list string) (r : list float) : Prop :=
  map_Forall (λ k b, k ∈ names →
                     in_range (compared single k b.1) (compared single k b.2)
                              (field names k r) = true)
             bounds.

#[export] Instance keeps_dec bounds single names r :
  Decision (keeps bounds single names r).
Proof. unfold keeps. apply _. Defined.

(** The array of the retained records of [a]. *)
Definition retained (bounds : gmap string (float * float))
    (single : list string) (a : recarray) : recarray :=
  RecArray (dtype_names a)
           (filter (keeps bounds single (dtype_names a)) (records a)).

(** Both entries of every bin are record arrays on the heap. *)
Definition series_on (h : heap) (bins : list (loc * loc)) : Prop :=
  Forall (λ bin, ∃ E se F sf, h !! bin.1 = Some (NdArr E se)
                             ∧ h !! bin.2 = Some (NdArr F sf))
         bins.

(** The outputs [out] of bin [bin], read in the final heap [h'], are the
    arrays of the retained records of the sources, read in [h], with the
    dtype of their sources. *)
Definition filtered_at (bounds : gmap string (float * float)) (h h' : heap)
    (bin out : loc * loc) : Prop :=
  ∃ E se F sf,
    h !! bin.1 = Some (NdArr E se) ∧ h !! bin.2 = Some (NdArr F sf)
    ∧ h' !! out.1 = Some (NdArr (retained bounds se E) se)
    ∧ h' !! out.2 = Some (NdArr (retained bounds sf F) sf).


(** The addresses of the outputs, in the order in which they are yielded. *)
Definition out_locs (outs : list (loc * loc)) : list loc :=
  flat_map (λ out, [out.1; out.2]) outs.

(** The test of one bound on one record of an array with fields [names],
    and the mask function after one more pass of the loop. *)
Definition bound_ok (single names : list string)
    (item : string * (float * float)) (r : list float) : bool :=
  if bool_decide (item.1 ∈ names)
  then in_range (compared single item.1 item.2.1)
                (compared single item.1 item.2.2) (field names item.1 r)
  else true.

Definition step_mask (single names : list string) (f : list float → bool)
    (item : string * (float * float)) : list float → bool :=
  λ r, f r && bound_ok single names item r.

(** The loop keeps the two masks at their addresses, on top of the heap it
    started from. *)
Definition masks_at (h0 : heap) (E F : recarray)
    (fe ff : list float → bool) (h : heap) : Prop :=
  (∃ tmp, h = h0 ++ tmp)
  ∧ h !! length h0 = Some (NdBool (map fe (records E)))
  ∧ h !! S (length h0) = Some (NdBool (map ff (records F))).

End FilterSpec.

(** ** Sample inputs *)

Module Samples.
Import Py Np Filter Profiles Grid.

(** One bin: events with a [power] field only, flashes with an [area] and
    a [CG] field, to be filtered with the bounds of the script. *)
Definition sample_events : recarray :=
  RecArray ["power"] [[f64 1 0]; [f64 2 0]].

Definition sample_flashes : recarray :=
  RecArray ["area"; "CG"]
    [ [S754_zero false; f64 1 0];
      [f64 10000000000 0; S754_zero false];
      [S754_nan; S754_zero false];
      [f64 20000000000 0; S754_zero false] ].

Definition sample_heap : heap := [NdRec sample_events; NdRec sample_flashes].

(** The heap after the sample run: the two masks, the three temporaries
    of the comparisons on the flashes, and the two outputs. *)
Definition sample_final : heap :=
  Eval vm_compute in
    match gen_filtered_time_series [0] [1] bounds sample_heap with
    | Ok (_, h') => h'
    | Raise _ => []
    end.

(** The flashes that the sample run retains: the areas 0.0 and 1.0e10. *)
Definition sample_flashes_filt : recarray :=
  RecArray ["area"; "CG"]
    [ [S754_zero false; f64 1 0];
      [f64 10000000000 0; S754_zero false] ].

(** Flashes without a polarity field. *)
Definition sample_flashes_no_CG : recarray :=
  RecArray ["area"] [[f64 1 0]].

(** Three bin edges, half an hour apart, and the profiles of the two bins. *)
Definition sample_edges : list float := [f64 0 0; f64 1800 0; f64 3600 0].

Definition sample_profiles : list (list float) :=
  [[f64 30 0]; [f64 90 0; f64 0 0]].

(** One statistics record, its values already rendered. *)
Definition sample_stats : gmap string string :=
  list_to_map
    [ ("number", "3"); ("mean", "2.0"); ("variance", "0.666");
      ("skewness", "0.0"); ("kurtosis", "-1.5"); ("energy", "12.5");
      ("energy_per_flash", "4.16");
      ("start_isoformat", "2012-05-29T23:00:00");
      ("end_isoformat", "2012-05-29T23:30:00") ].

(** A grid step of one cell, holding the count [v], at time [t]. *)
Definition sample_step (t : Z) (v : float) : step :=
  Step t [f64 0 0; f64 1 0] [f64 0 0; f64 1 0] (NdArray2 (1, 1) [v]).

(** Stand-ins for the collaborators of the grid pass: timestamps are
    rendered as decimal numbers, every number as ["x"], every cell is inside
    the lasso, and the reductions return the first value. *)
Definition sample_str_datetime (t : Z) : string := pretty t.
Definition sample_isoformat (t : Z) : string := ("T" ++ pretty t)%string.
Definition sample_str_float (x : float) : string := "x".
Definition sample_total_seconds (d : Z) : float := f64 d 0.
Definition sample_in_lasso (c : cell) : bool := true.
Definition sample_reduce (v : list float) : float := hd S754_nan v.
Definition sample_percentile (v : list float) (p : Z) : float := hd S754_nan v.

(** The grid pass over the window from 0 to 10. *)
Definition sample_grid_loop : list step → list string → result (list string) :=
  grid_loop 0 10 0 sample_isoformat sample_str_datetime sample_str_float
    sample_total_seconds sample_in_lasso sample_reduce sample_reduce
    sample_percentile.

Definition sample_grid_report : list step → result (list string) :=
  grid_report 0 10 0 sample_isoformat sample_str_datetime sample_str_float
    sample_total_seconds sample_in_lasso sample_reduce sample_reduce
    sample_percentile.

End Samples.

(** ** A sample with a single-precision field *)

Module SingleSamples.
Import Py Np Samples.

(** The double 0.1, and float32(0.1) = 13421773 * 2^-27, which is the
    single-precision number nearest to it and lies above it. *)
Definition tenth : float := f64 3602879701896397 (-55).
Definition single_tenth : float := f64 13421773 (-27).

(** Events with one single-precision field, holding float32(0.1) and 1. *)
Definition single_powers : recarray :=
  RecArray ["power"] [[single_tenth]; [f64 1 0]].

Definition single_heap : heap :=
  [NdArr single_powers ["power"]; NdRec sample_flashes].

(** Power between 0.0 and 0.1. *)
Definition power_bounds : gmap string (float * float) :=
  {[ "power" := (S754_zero false, tenth) ]}.

End SingleSamples.

(** ** The summary series (lines 133-145) *)

Module Summary.
Import Py Np Filter Pipeline.

Section Collaborators.

(** The collaborators of lmatools, taken as functions of the arrays: the
    moments of the flashes of one bin ([flash_size_stats]) and the length
    profiles of its events and flashes ([process_events_flashes]). *)
Variables size_stat per_flash profile : Type.
Variable flash_size_stats : recarray → size_stat.
Variable process_events_flashes :
  recarray → recarray → per_flash * profile * profile.

(** The body of [gen_flash_summary_time_series] for one bin. *)
Definition summary_bin (bin : loc * loc) : M (size_stat * profile * profile) :=
  let '(events_ref, flashes_ref) := bin in
  events ← as_rec events_ref;
  flashes ← as_rec flashes_ref;
  let size_stats := flash_size_stats flashes in
  let '(per_flash_data, IC_profile, CG_profile) :=
    process_events_flashes events flashes in
  mret (size_stats, IC_profile, CG_profile).

Definition gen_flash_summary_time_series (events_series flashes_series : list loc)
    : M (list (size_stat * profile * profile)) :=
  generate (zip events_series flashes_series) summary_bin.

(** Line 145: the yielded triples are transposed and unpacked into three
    sequences; with no triple there is nothing to unpack. *)
Definition unpack_summaries (time_series : list (size_stat * profile * profile))
    : result (list size_stat * list profile * list profile) :=
  match time_series with
  | [] => Raise ValueError
  | _ :: _ =>
      Ok (map (λ s, s.1.1) time_series, map (λ s, s.1.2) time_series,
          map (λ s, s.2) time_series)
  end.

(** Lines 143-145. *)
Definition summary_series (events_series flashes_series : list loc)
    : M (list size_stat * list profile * list profile) :=
  time_series ← gen_flash_summary_time_series events_series flashes_series;
  lift (unpack_summaries time_series).

(** Lines 83-84 followed by lines 143-145: the summaries are taken over
    the filtered series. *)
Definition filtered_summary (events_series flashes_series : list loc)
    (bounds : gmap string (float * float))
    : M (list size_stat * list profile * list profile) :=
  filtered ← filtered_series events_series flashes_series bounds;
  summary_series filtered.1 filtered.2.

(** The summary of one bin whose arrays are [events] and [flashes]. *)
Definition summary_of (events flashes : recarray)
    : size_stat * profile * profile :=
  (flash_size_stats flashes,
   (process_events_flashes events flashes).1.2,
   (process_events_flashes events flashes).2).

End Collaborators.

End Summary.

(** ** The flash centroid plotter (lines 89-115) *)

Module Plotter.
Import Py Np Filter Pipeline.

(** What [evax.scatter] is given: the two coordinate columns, the colour
    column and the colour limits. *)
Record scatter : Type := Scatter {
  scatter_x : list float;
  scatter_y : list float;
  scatter_c : list float;
  scatter_vmin : float;
  scatter_vmax : float
}.

(** The state of a [FlashCentroidPlotter]; the colour bar is kept as the
    scatter it was made from. *)
Record plotter : Type := FlashCentroidPlotter {
  t_sec_min : float;
  t_sec_max : float;
  colorbar : option scatter;
  scatters : list scatter
}.

(** [__init__]. *)
Definition init (t_sec_min t_sec_max : float) : plotter :=
  FlashCentroidPlotter t_sec_min t_sec_max None [].

(** [flashes[k]] on a structured array. *)
Definition getitem (a : recarray) (k : string) : result (list float) :=
  if bool_decide (k ∈ dtype_names a) then Ok (column k a) else Raise ValueError.

(** [plot]. *)
Definition plot (self : plotter) (flashes : recarray) : result plotter :=
  match getitem flashes "init_lon" with
  | Raise e => Raise e
  | Ok lon =>
      match getitem flashes "init_lat" with
      | Raise e => Raise e
      | Ok lat =>
          match getitem flashes "start" with
          | Raise e => Raise e
          | Ok start =>
              let scart :=
                Scatter lon lat start (t_sec_min self) (t_sec_max self) in
              let colorbar' :=
                match colorbar self with
                | None => Some scart
                | Some c => Some c
                end in
              Ok (FlashCentroidPlotter (t_sec_min self) (t_sec_max self)
                    colorbar' (scatters self ++ [scart]))
          end
      end
  end.

(** Lines 114-115: [for flashes in flashes_series: plotter.plot(flashes)]. *)
Fixpoint plot_series (self : plotter) (flashes_series : list recarray)
    : result plotter :=
  match flashes_series with
  | [] => Ok self
  | flashes :: rest =>
      match plot self flashes with
      | Raise e => Raise e
      | Ok self' => plot_series self' rest
      end
  end.

(** Lines 83-84 followed by lines 112-115: a new plotter draws the
    filtered flash series. *)
Definition plot_filtered (events_series flashes_series : list loc)
    (bounds : gmap string (float * float)) (t_sec_min t_sec_max : float)
    : M plotter :=
  filtered ← filtered_series events_series flashes_series bounds;
  flashes ← deref filtered.2;
  lift (plot_series (init t_sec_min t_sec_max) flashes).

(** The scatter that [plot] draws for an array having the three fields. *)
Definition scatter_of (t_sec_min t_sec_max : float) (flashes : recarray)
    : scatter :=
  Scatter (column "init_lon" flashes) (column "init_lat" flashes)
          (column "start" flashes) t_sec_min t_sec_max.

(** The fields that [plot] reads. *)
Definition plot_fields : list string := ["init_lon"; "init_lat"; "start"].

(** Every field that the plotter reads is a field of [a]. *)
Definition has_plot_fields (a : recarray) : Prop :=
  Forall (λ k, k ∈ dtype_names a) plot_fields.

#[export] Instance has_plot_fields_dec a : Decision (has_plot_fields a).
Proof. unfold has_plot_fields. apply _. Defined.

End Plotter.

(** ** Vocabulary for the runs of the filter *)

Module Runs.
Import Py Np Filter FilterSpec.

(** Some run of the filter with [bounds], on a heap where the series hold
    record arrays, has the object [o] as the events or the flashes of one
    of its bins and yields the object [o'] for it. *)
Definition filter_yields (bounds : gmap string (float * float))
    (o o' : ndarray) : Prop :=
  ∃ h events_series flashes_series outs h' i bin out,
    series_on h (zip events_series flashes_series)
    ∧ gen_filtered_time_series events_series flashes_series bounds h
      = Ok (outs, h')
    ∧ zip events_series flashes_series !! i = Some bin
    ∧ outs !! i = Some out
    ∧ ((h !! bin.1 = Some o ∧ h' !! out.1 = Some o')
       ∨ (h !! bin.2 = Some o ∧ h' !! out.2 = Some o')).

(** The bins hold in order the pairs of an events and a flashes array,
    each with its single-precision fields. *)
Definition bins_at (h : heap) (bins : list (loc * loc))
    (arrays : list ((recarray * list string) * (recarray * list string)))
    : Prop :=
  Forall2 (λ bin EF, h !! bin.1 = Some (NdArr EF.1.1 EF.1.2)
                     ∧ h !! bin.2 = Some (NdArr EF.2.1 EF.2.2))
          bins arrays.

End Runs.

(** ** More sample inputs *)

Module MoreSamples.
Import Py Np Filter Grid Plotter Samples.

(** Flashes with the fields that the plotter reads, and an area. *)
Definition sample_located : recarray :=
  RecArray ["init_lon"; "init_lat"; "start"; "area"]
    [ [f64 (-101) 0; f64 33 0; f64 10 0; f64 5 0];
      [f64 (-102) 0; f64 34 0; f64 20 0; f64 (-1) 0];
      [f64 (-103) 0; f64 35 0; f64 30 0; f64 7 0] ].

Definition sample_located_filt : recarray :=
  RecArray ["init_lon"; "init_lat"; "start"; "area"]
    [ [f64 (-101) 0; f64 33 0; f64 10 0; f64 5 0];
      [f64 (-103) 0; f64 35 0; f64 30 0; f64 7 0] ].

Definition sample_located_heap : heap :=
  [NdRec sample_events; NdArr sample_located ["area"]].

(** A grid of two rows and three columns. *)
Definition sample_xedge : list float := [f64 0 0; f64 2 0; f64 4 0; f64 6 0].
Definition sample_yedge : list float := [f64 10 0; f64 12 0; f64 14 0].
Definition sample_grid : ndarray2 :=
  NdArray2 (2, 3) [f64 1 0; f64 0 0; f64 3 0; S754_nan; f64 5 0; f64 0 0].

(** Statistics records with and without a further field. *)
Definition sample_stats_more : gmap string string :=
  <["median" := "2.0"]> sample_stats.

End MoreSamples.

(** * Proofs *)

(** ** IEEE comparison *)

Section Compare.
Import Np FilterSpec.

Lemma SFcompare_antisym x y c :
  SFcompare x y = Some c → SFcompare y x = Some (CompOpp c).
Proof.
  destruct x as [sx|sx| |sx mx ex], y as [sy|sy| |sy my ey]; simpl;
    try discriminate;
    try (intros [= <-]; try destruct sx; try destruct sy; reflexivity).
  intros [= <-]. f_equal.
  rewrite (Z.compare_antisym ex ey).
  change (Pos.compare_cont Eq my mx) with (Pos.compare my mx).
  change (Pos.compare_cont Eq mx my) with (Pos.compare mx my).
  rewrite (Pos.compare_antisym mx my).
  destruct sx, sy; try reflexivity;
    destruct (ex ?= ey)%Z; simpl; try reflexivity;
    destruct (mx ?= my)%positive; reflexivity.
Qed.

Lemma SFcompare_eq_l x y z :
  SFcompare x y = Some Eq → SFcompare x z = SFcompare y z.
Proof.
  destruct x as [sx|sx| |sx mx ex], y as [sy|sy| |sy my ey]; simpl;
    try discriminate;
    try (destruct sx, sy; try discriminate; intros _; destruct z; reflexivity).
  intros H.
  assert (sx = sy ∧ ex = ey ∧ mx = my) as (-> & -> & ->).
  { destruct sx, sy; try discriminate;
      destruct (ex ?= ey)%Z eqn:He; try discriminate;
      apply Z.compare_eq in He;
      change (Pos.compare_cont Eq mx my) with (Pos.compare mx my) in H;
      destruct (mx ?= my)%positive eqn:Hm; try discriminate;
      apply Pos.compare_eq in Hm; done. }
  reflexivity.
Qed.

(** A value equal to the lower end of a non-empty range is in the range. *)
Lemma in_range_at_min lo hi x :
  equal x lo = true → less_equal lo hi = true → in_range lo hi x = true.
Proof.
  unfold in_range, equal, less_equal, greater_equal. intros Hx Hr.
  destruct (SFcompare x lo) as [[]|] eqn:Hc; try discriminate.
  rewrite (SFcompare_eq_l _ _ hi Hc). by destruct (SFcompare lo hi) as [[]|].
Qed.

(** A value equal to the upper end of a non-empty range is in the range. *)
Lemma in_range_at_max lo hi x :
  equal x hi = true → less_equal lo hi = true → in_range lo hi x = true.
Proof.
  unfold in_range, equal, less_equal, greater_equal. intros Hx Hr.
  destruct (SFcompare x hi) as [[]|] eqn:Hc; try discriminate.
  rewrite (SFcompare_eq_l _ _ lo Hc).
  destruct (SFcompare lo hi) as [c|] eqn:Hl; [|discriminate].
  rewrite (SFcompare_antisym _ _ _ Hl). by destruct c.
Qed.

(** A NaN is in no range. *)
Lemma in_range_nan lo hi x : isnan x = true → in_range lo hi x = false.
Proof. destruct x; try discriminate. reflexivity. Qed.

End Compare.

(** ** The filter on the heap *)

Section FilterProofs.
Import Py Np Filter FilterSpec.

Lemma run_bind {A B} (m : M A) (f : A → M B) (h : heap) :
  (m ≫= f) h = match m h with Ok (a, h') => f a h' | Raise e => Raise e end.
Proof. reflexivity. Qed.

Lemma run_ret {A} (a : A) (h : heap) : (mret a : M A) h = Ok (a, h).
Proof. reflexivity. Qed.

Lemma as_rec_ok h l a s : h !! l = Some (NdArr a s) → as_rec l h = Ok (a, h).
Proof. intros H. unfold as_rec, load. rewrite run_bind, H. reflexivity. Qed.

Lemma single_fields_ok h l a s :
  h !! l = Some (NdArr a s) → single_fields l h = Ok (s, h).
Proof. intros H. unfold single_fields, load. rewrite run_bind, H. reflexivity. Qed.

Lemma as_bool_ok h l m : h !! l = Some (NdBool m) → as_bool l h = Ok (m, h).
Proof. intros H. unfold as_bool, load. rewrite run_bind, H. reflexivity. Qed.

Lemma getitem_field_ok h l a s k :
  h !! l = Some (NdArr a s) → k ∈ dtype_names a →
  getitem_field l k h = Ok ((l, k), h).
Proof.
  intros H Hk. unfold getitem_field. rewrite run_bind, (as_rec_ok _ _ _ _ H).
  destruct (decide (k ∈ dtype_names a)); [reflexivity | contradiction].
Qed.

Lemma ge_scalar_ok h l a s k x :
  h !! l = Some (NdArr a s) →
  ge_scalar (l, k) x h
  = Ok (length h,
        h ++ [NdBool (map (λ r, greater_equal (field (dtype_names a) k r)
                                              (compared s k x))
                          (records a))]).
Proof.
  intros H. unfold ge_scalar, read_view. rewrite !run_bind. simpl.
  rewrite (as_rec_ok _ _ _ _ H). rewrite run_ret.
  rewrite run_bind, (single_fields_ok _ _ _ _ H). unfold alloc, column.
  rewrite map_map. reflexivity.
Qed.

Lemma le_scalar_ok h l a s k x :
  h !! l = Some (NdArr a s) →
  le_scalar (l, k) x h
  = Ok (length h,
        h ++ [NdBool (map (λ r, less_equal (field (dtype_names a) k r)
                                           (compared s k x))
                          (records a))]).
Proof.
  intros H. unfold le_scalar, read_view. rewrite !run_bind. simpl.
  rewrite (as_rec_ok _ _ _ _ H). rewrite run_ret.
  rewrite run_bind, (single_fields_ok _ _ _ _ H). unfold alloc, column.
  rewrite map_map. reflexivity.
Qed.

Lemma zip_with_map_same {A} (f g : A → bool) (xs : list A) :
  zip_with andb (map f xs) (map g xs) = map (λ x, f x && g x) xs.
Proof. induction xs as [|x xs IH]; simpl; [reflexivity | by rewrite IH]. Qed.

Lemma and_ok {A} h l1 l2 (f g : A → bool) xs :
  h !! l1 = Some (NdBool (map f xs)) → h !! l2 = Some (NdBool (map g xs)) →
  and_ l1 l2 h = Ok (length h, h ++ [NdBool (map (λ x, f x && g x) xs)]).
Proof.
  intros H1 H2. unfold and_. rewrite run_bind, (as_bool_ok _ _ _ H1).
  rewrite run_bind, (as_bool_ok _ _ _ H2).
  rewrite !length_map. destruct (decide (length xs = length xs)); [|contradiction].
  by rewrite zip_with_map_same.
Qed.

Lemma iand_ok {A} h l1 l2 (f g : A → bool) xs :
  h !! l1 = Some (NdBool (map f xs)) → h !! l2 = Some (NdBool (map g xs)) →
  iand l1 l2 h = Ok (tt, <[l1 := NdBool (map (λ x, f x && g x) xs)]> h).
Proof.
  intros H1 H2. unfold iand. rewrite run_bind, (as_bool_ok _ _ _ H1).
  rewrite run_bind, (as_bool_ok _ _ _ H2).
  rewrite !length_map. destruct (decide (length xs = length xs)); [|contradiction].
  by rewrite zip_with_map_same.
Qed.


Lemma bound_block_ok h arr target a s k lo hi f :
  h !! arr = Some (NdArr a s) → k ∈ dtype_names a →
  h !! target = Some (NdBool (map f (records a))) →
  ∃ new,
    (v ← getitem_field arr k;
     blo ← ge_scalar v lo;
     v' ← getitem_field arr k;
     bhi ← le_scalar v' hi;
     both ← and_ blo bhi;
     iand target both) h
    = Ok (tt, <[target := NdBool (map (step_mask s (dtype_names a) f
                                         (k, (lo, hi))) (records a))]>
                (h ++ new)).
Proof.
  intros Ha Hk Ht.
  pose proof (lookup_lt_Some _ _ _ Ha) as Hla.
  pose proof (lookup_lt_Some _ _ _ Ht) as Hlt.
  set (glo := λ r, greater_equal (field (dtype_names a) k r) (compared s k lo)).
  set (ghi := λ r, less_equal (field (dtype_names a) k r) (compared s k hi)).
  exists [NdBool (map glo (records a)); NdBool (map ghi (records a));
          NdBool (map (λ r, glo r && ghi r) (records a))].
  rewrite run_bind, (getitem_field_ok _ _ _ _ _ Ha Hk).
  rewrite run_bind, (ge_scalar_ok _ _ _ _ _ _ Ha). fold glo.
  set (h1 := h ++ [NdBool (map glo (records a))]).
  assert (Ha1 : h1 !! arr = Some (NdArr a s))
    by (unfold h1; by rewrite lookup_app_l).
  rewrite run_bind, (getitem_field_ok _ _ _ _ _ Ha1 Hk).
  rewrite run_bind, (le_scalar_ok _ _ _ _ _ _ Ha1). fold ghi.
  set (h2 := h1 ++ [NdBool (map ghi (records a))]).
  assert (Hlo : h2 !! length h = Some (NdBool (map glo (records a)))).
  { unfold h2, h1. rewrite <- app_assoc. by apply list_lookup_middle. }
  assert (Hhi : h2 !! length h1 = Some (NdBool (map ghi (records a)))).
  { unfold h2. by apply list_lookup_middle. }
  rewrite run_bind, (and_ok _ _ _ _ _ _ Hlo Hhi).
  set (h3 := h2 ++ _).
  assert (Hb : h3 !! length h2 = Some (NdBool (map (λ r, glo r && ghi r) (records a)))).
  { unfold h3. by apply list_lookup_middle. }
  assert (Ht3 : h3 !! target = Some (NdBool (map f (records a)))).
  { unfold h3, h2, h1. rewrite !lookup_app_l; rewrite ?length_app; simpl; try lia. done. }
  rewrite (iand_ok _ _ _ _ _ _ Ht3 Hb).
  unfold h3, h2, h1. rewrite <- !app_assoc. simpl.
  do 4 f_equal. apply map_ext. intros r.
  unfold step_mask, bound_ok, in_range, glo, ghi. simpl.
  by rewrite bool_decide_eq_true_2.
Qed.

Lemma masks_at_store_e h0 E F fe ff h new fe' :
  masks_at h0 E F fe ff h →
  masks_at h0 E F fe' ff (<[length h0 := NdBool (map fe' (records E))]> (h ++ new)).
Proof.
  intros ([tmp ->] & He & Hf).
  pose proof (lookup_lt_Some _ _ _ He) as Hl.
  split; [|split].
  - rewrite <- app_assoc. rewrite insert_app_r_alt by lia. eauto.
  - apply list_lookup_insert_eq. rewrite length_app. lia.
  - rewrite list_lookup_insert_ne by lia. by rewrite lookup_app_l by (by eapply lookup_lt_Some).
Qed.

Lemma masks_at_store_f h0 E F fe ff h new ff' :
  masks_at h0 E F fe ff h →
  masks_at h0 E F fe ff' (<[S (length h0) := NdBool (map ff' (records F))]> (h ++ new)).
Proof.
  intros ([tmp ->] & He & Hf).
  pose proof (lookup_lt_Some _ _ _ Hf) as Hl.
  split; [|split].
  - rewrite <- app_assoc. rewrite insert_app_r_alt by lia. eauto.
  - rewrite list_lookup_insert_ne by lia. by rewrite lookup_app_l by (by eapply lookup_lt_Some).
  - apply list_lookup_insert_eq. rewrite length_app. lia.
Qed.

Lemma masks_at_source h0 E F fe ff h l o :
  masks_at h0 E F fe ff h → h0 !! l = Some o → h !! l = Some o.
Proof.
  intros ([tmp ->] & _) Hl. by rewrite lookup_app_l by (by eapply lookup_lt_Some).
Qed.


Lemma names_ok h l a s :
  h !! l = Some (NdArr a s) → names l h = Ok (dtype_names a, h).
Proof. intros H. unfold names. by rewrite run_bind, (as_rec_ok _ _ _ _ H). Qed.

Lemma shape_ok h l a s :
  h !! l = Some (NdArr a s) → shape l h = Ok (length (records a), h).
Proof. intros H. unfold shape. by rewrite run_bind, (as_rec_ok _ _ _ _ H). Qed.

Lemma step_mask_absent single names f item :
  item.1 ∉ names → ∀ r, step_mask single names f item r = f r.
Proof.
  intros Hk r. unfold step_mask, bound_ok.
  rewrite bool_decide_eq_false_2 by done. apply andb_true_r.
Qed.

Lemma masks_at_ext h0 E F fe ff fe' ff' h :
  (∀ r, fe r = fe' r) → (∀ r, ff r = ff' r) →
  masks_at h0 E F fe ff h → masks_at h0 E F fe' ff' h.
Proof.
  intros He Hf (Hp & H1 & H2). split; [done|].
  by rewrite <- (map_ext _ _ He), <- (map_ext _ _ Hf).
Qed.

Lemma apply_bound_ok h0 ev fl E se F sf fe ff item h :
  h0 !! ev = Some (NdArr E se) → h0 !! fl = Some (NdArr F sf) →
  masks_at h0 E F fe ff h →
  ∃ h', apply_bound ev fl (length h0) (S (length h0)) item h = Ok (tt, h')
        ∧ masks_at h0 E F (step_mask se (dtype_names E) fe item)
                          (step_mask sf (dtype_names F) ff item) h'.
Proof.
  intros Hev Hfl Hm. destruct item as [k [lo hi]]. unfold apply_bound.
  pose proof (masks_at_source _ _ _ _ _ _ _ _ Hm Hev) as Hev1.
  rewrite run_bind, (names_ok _ _ _ _ Hev1). rewrite run_bind.
  assert (∃ h1, when (bool_decide (k ∈ dtype_names E))
            (ev_k ← getitem_field ev k; lo0 ← ge_scalar ev_k lo;
             ev_k' ← getitem_field ev k; hi0 ← le_scalar ev_k' hi;
             both ← and_ lo0 hi0; iand (length h0) both) h = Ok (tt, h1)
          ∧ masks_at h0 E F (step_mask se (dtype_names E) fe (k, (lo, hi)))
                            ff h1)
    as (h1 & -> & Hm1).
  { destruct (decide (k ∈ dtype_names E)) as [Hk|Hk].
    - rewrite bool_decide_eq_true_2 by done. simpl.
      pose proof Hm as (Hp & He & Hf).
      destruct (bound_block_ok h ev (length h0) E se k lo hi fe Hev1 Hk He)
        as [new ->].
      eexists; split; [reflexivity|]. by eapply masks_at_store_e.
    - rewrite bool_decide_eq_false_2 by done. simpl.
      eexists; split; [reflexivity|].
      eapply masks_at_ext; [| |exact Hm]; [|done].
      intros r. symmetry. by apply step_mask_absent. }
  pose proof (masks_at_source _ _ _ _ _ _ _ _ Hm1 Hfl) as Hfl1.
  rewrite run_bind, (names_ok _ _ _ _ Hfl1).
  destruct (decide (k ∈ dtype_names F)) as [Hk|Hk].
  - rewrite bool_decide_eq_true_2 by done. simpl.
    pose proof Hm1 as (Hp & He & Hf).
    destruct (bound_block_ok h1 fl (S (length h0)) F sf k lo hi ff Hfl1 Hk Hf)
      as [new ->].
    eexists; split; [reflexivity|]. by eapply masks_at_store_f.
  - rewrite bool_decide_eq_false_2 by done. simpl.
    eexists; split; [reflexivity|].
    eapply masks_at_ext; [| |exact Hm1]; [done|].
    intros r. symmetry. by apply step_mask_absent.
Qed.

Lemma for_bounds_ok h0 ev fl E se F sf items :
  h0 !! ev = Some (NdArr E se) → h0 !! fl = Some (NdArr F sf) →
  ∀ fe ff h, masks_at h0 E F fe ff h →
  ∃ h', for_ items (apply_bound ev fl (length h0) (S (length h0))) h = Ok (tt, h')
        ∧ masks_at h0 E F (fold_left (step_mask se (dtype_names E)) items fe)
                          (fold_left (step_mask sf (dtype_names F)) items ff) h'.
Proof.
  intros Hev Hfl. induction items as [|item items IH]; intros fe ff h Hm.
  - exists h. by split.
  - simpl. rewrite run_bind.
    destruct (apply_bound_ok _ _ _ _ _ _ _ _ _ item _ Hev Hfl Hm)
      as (h1 & -> & Hm1).
    apply IH, Hm1.
Qed.

Lemma fold_step_mask single names items f r :
  fold_left (step_mask single names) items f r = true
  ↔ f r = true ∧ Forall (λ item, bound_ok single names item r = true) items.
Proof.
  revert f. induction items as [|item items IH]; intros f; simpl.
  - split; [intros H; by split | by intros [H _]].
  - rewrite IH. unfold step_mask at 1. rewrite andb_true_iff, Forall_cons.
    tauto.
Qed.

Lemma final_mask_keeps bounds single names r :
  fold_left (step_mask single names) (map_to_list bounds) (λ _, true) r = true
  ↔ keeps bounds single names r.
Proof.
  rewrite fold_step_mask. unfold keeps. rewrite map_Forall_to_list.
  split.
  - intros [_ H]. eapply Forall_impl; [exact H|].
    intros [k [lo hi]] Hb Hk. unfold bound_ok in Hb. simpl in *.
    by rewrite bool_decide_eq_true_2 in Hb.
  - intros H. split; [done|]. eapply Forall_impl; [exact H|].
    intros [k [lo hi]] Hb. unfold bound_ok. simpl in *.
    case_bool_decide; [by apply Hb | done].
Qed.

Lemma mask_select_filter {A} (f : A → bool) (P : A → Prop)
    `{!∀ x, Decision (P x)} (xs : list A) :
  (∀ x, f x = true ↔ P x) → mask_select (map f xs) xs = filter P xs.
Proof.
  intros Hf. induction xs as [|x xs IH]; [reflexivity|].
  simpl. rewrite IH. destruct (f x) eqn:Hx.
  - rewrite filter_cons_True; [done | by apply Hf].
  - rewrite filter_cons_False; [done|]. rewrite <- Hf. congruence.
Qed.

Lemma replicate_true_map {A} (xs : list A) :
  replicate (length xs) true = map (λ _, true) xs.
Proof. induction xs; simpl; congruence. Qed.

Lemma getitem_mask_ok h l lm a s f :
  h !! l = Some (NdArr a s) → h !! lm = Some (NdBool (map f (records a))) →
  getitem_mask l lm h
  = Ok (length h,
        h ++ [NdArr (RecArray (dtype_names a)
                       (mask_select (map f (records a)) (records a))) s]).
Proof.
  intros Ha Hm. unfold getitem_mask.
  rewrite run_bind, (as_rec_ok _ _ _ _ Ha).
  rewrite run_bind, (single_fields_ok _ _ _ _ Ha).
  rewrite run_bind, (as_bool_ok _ _ _ Hm).
  rewrite length_map. by destruct (decide _).
Qed.

(** One bin: the two outputs are new buffers appended to the heap, which
    is otherwise left as it was. *)
Lemma filter_bin_ok bounds h ev fl E se F sf :
  h !! ev = Some (NdArr E se) → h !! fl = Some (NdArr F sf) →
  ∃ tmp,
    filter_bin bounds (ev, fl) h
    = Ok ((length (h ++ tmp), S (length (h ++ tmp))),
          (h ++ tmp) ++ [NdArr (retained bounds se E) se;
                         NdArr (retained bounds sf F) sf]).
Proof.
  intros Hev Hfl. unfold filter_bin.
  rewrite run_bind, (shape_ok _ _ _ _ Hev). rewrite run_bind.
  unfold ones at 1, alloc at 1.
  set (h1 := h ++ _).
  assert (Hfl1 : h1 !! fl = Some (NdArr F sf)).
  { unfold h1. by rewrite lookup_app_l by (by eapply lookup_lt_Some). }
  rewrite run_bind, (shape_ok _ _ _ _ Hfl1). rewrite run_bind.
  unfold ones, alloc.
  set (h2 := h1 ++ _).
  assert (Hm : masks_at h E F (λ _, true) (λ _, true) h2).
  { unfold h2, h1. rewrite !replicate_true_map. rewrite <- app_assoc.
    split; [eauto|]. split.
    - by apply list_lookup_middle.
    - rewrite lookup_app_r by lia.
      by replace (S (length h) - length h) with 1 by lia. }
  replace (length h1) with (S (length h))
    by (unfold h1; rewrite length_app; simpl; lia).
  rewrite run_bind.
  destruct (for_bounds_ok h ev fl E se F sf (map_to_list bounds) Hev Hfl
              _ _ _ Hm)
    as (h3 & -> & ([tmp ->] & He & Hf)).
  exists tmp.
  assert (Hev3 : (h ++ tmp) !! ev = Some (NdArr E se))
    by (by rewrite lookup_app_l by (by eapply lookup_lt_Some)).
  assert (Hfl3 : (h ++ tmp) !! fl = Some (NdArr F sf))
    by (by rewrite lookup_app_l by (by eapply lookup_lt_Some)).
  rewrite run_bind, (getitem_mask_ok _ _ _ _ _ _ Hev3 He).
  set (h4 := (h ++ tmp) ++ _).
  assert (Hfl4 : h4 !! fl = Some (NdArr F sf)).
  { unfold h4. by rewrite lookup_app_l by (by eapply lookup_lt_Some). }
  assert (Hf4 : h4 !! S (length h) = Some (NdBool (map
            (fold_left (step_mask sf (dtype_names F)) (map_to_list bounds)
               (λ _, true))
            (records F)))).
  { unfold h4. by rewrite lookup_app_l by (by eapply lookup_lt_Some). }
  rewrite run_bind, (getitem_mask_ok _ _ _ _ _ _ Hfl4 Hf4).
  unfold h4. rewrite run_ret.
  rewrite !(mask_select_filter _ (keeps bounds _ _))
    by (intros; apply final_mask_keeps).
  rewrite <- (app_assoc (h ++ tmp)), (length_app (h ++ tmp) [_]). simpl.
  by rewrite Nat.add_1_r.
Qed.

Lemma Forall2_with {A B} (P : A → Prop) (R Q : A → B → Prop) l k :
  Forall P l → Forall2 R l k → (∀ x y, P x → R x y → Q x y) → Forall2 Q l k.
Proof.
  intros HP HR HQ. induction HR as [|x y l k Hxy HR IH]; [constructor|].
  inversion HP; subst. constructor; auto.
Qed.

Lemma series_on_app h tmp bins : series_on h bins → series_on (h ++ tmp) bins.
Proof.
  intros H. eapply Forall_impl; [exact H|].
  intros bin (E & se & F & sf & He & Hf). exists E, se, F, sf.
  by rewrite !lookup_app_l by (by eapply lookup_lt_Some).
Qed.

Lemma generate_ok bounds bins :
  ∀ h, series_on h bins →
  ∃ outs tmp,
    generate bins (filter_bin bounds) h = Ok (outs, h ++ tmp)
    ∧ Forall2 (filtered_at bounds h (h ++ tmp)) bins outs
    ∧ Forall (λ l, length h ≤ l < length (h ++ tmp)) (out_locs outs)
    ∧ NoDup (out_locs outs).
Proof.
  induction bins as [|[ev fl] bins IH]; intros h Hs.
  - exists [], []. rewrite app_nil_r. repeat split; constructor.
  - inversion Hs as [|? ? (E & se & F & sf & Hev & Hfl) Hs']; subst.
    simpl in Hev, Hfl.
    destruct (filter_bin_ok bounds h ev fl E se F sf Hev Hfl) as [tmp1 H1].
    set (out_e := NdArr (retained bounds se E) se) in *.
    set (out_f := NdArr (retained bounds sf F) sf) in *.
    set (h1 := (h ++ tmp1) ++ [out_e; out_f]) in *.
    assert (Hh1 : h1 = h ++ (tmp1 ++ [out_e; out_f]))
      by (unfold h1; by rewrite <- app_assoc).
    assert (Hs1 : series_on h1 bins) by (rewrite Hh1; by apply series_on_app).
    destruct (IH h1 Hs1) as (outs & tmp2 & Hrun & Hout & Hfresh & Hnd).
    exists ((length (h ++ tmp1), S (length (h ++ tmp1))) :: outs),
           (tmp1 ++ [out_e; out_f] ++ tmp2).
    assert (Hfin : h1 ++ tmp2 = h ++ tmp1 ++ [out_e; out_f] ++ tmp2).
    { rewrite Hh1. by rewrite <- !app_assoc. }
    rewrite <- Hfin.
    assert (Hlen1 : length h1 = S (S (length (h ++ tmp1)))).
    { unfold h1. rewrite (length_app (h ++ tmp1)). simpl. lia. }
    split; [|split; [|split]].
    + cbn [generate]. rewrite run_bind, H1. rewrite run_bind, Hrun. reflexivity.
    + constructor.
      * exists E, se, F, sf. simpl. split; [done|]. split; [done|].
        unfold h1. rewrite <- !app_assoc. split.
        -- rewrite app_assoc. by apply list_lookup_middle.
        -- rewrite (app_assoc h tmp1). rewrite lookup_app_r by lia.
           by replace (S (length (h ++ tmp1)) - length (h ++ tmp1)) with 1 by lia.
      * eapply Forall2_with; [exact Hs'|exact Hout|].
        intros bin out (E0 & se0 & F0 & sf0 & He0 & Hf0)
                       (E1 & se1 & F1 & sf1 & He1 & Hf1 & Ho1 & Ho2).
        exists E1, se1, F1, sf1. rewrite Hh1 in He1, Hf1.
        rewrite lookup_app_l in He1 by (by eapply lookup_lt_Some).
        rewrite lookup_app_l in Hf1 by (by eapply lookup_lt_Some).
        done.
    + pose proof (length_app h1 tmp2) as Hl2.
      pose proof (length_app h tmp1) as Hl1.
      change (out_locs ((length (h ++ tmp1), S (length (h ++ tmp1))) :: outs))
        with (length (h ++ tmp1) :: S (length (h ++ tmp1)) :: out_locs outs).
      apply Forall_cons; split; [lia|]. apply Forall_cons; split; [lia|].
      eapply Forall_impl; [exact Hfresh|]. simpl. intros l. lia.
    + change (out_locs ((length (h ++ tmp1), S (length (h ++ tmp1))) :: outs))
        with (length (h ++ tmp1) :: S (length (h ++ tmp1)) :: out_locs outs).
      rewrite !NoDup_cons. split; [|split; [|done]].
      * rewrite not_elem_of_cons. split; [lia|].
        intros Hin. rewrite Forall_forall in Hfresh. apply Hfresh in Hin. lia.
      * intros Hin. rewrite Forall_forall in Hfresh. apply Hfresh in Hin. lia.
Qed.

End FilterProofs.

(** ** The claims on the attribute-range filter *)

Section FilterClaims.
Import Py Np Filter FilterSpec Samples SingleSamples.

Lemma run_facts bounds h events_series flashes_series outs h' :
  series_on h (zip events_series flashes_series) →
  gen_filtered_time_series events_series flashes_series bounds h = Ok (outs, h') →
  (∃ tmp, h' = h ++ tmp)
  ∧ Forall2 (filtered_at bounds h h') (zip events_series flashes_series) outs
  ∧ Forall (λ l, length h ≤ l < length h') (out_locs outs)
  ∧ NoDup (out_locs outs).
Proof.
  intros Hs Hrun. unfold gen_filtered_time_series in Hrun.
  destruct (generate_ok bounds _ h Hs) as (outs0 & tmp & Hrun0 & H1 & H2 & H3).
  rewrite Hrun0 in Hrun. injection Hrun as <- <-. eauto.
Qed.

Lemma keeps_unfold bounds single names r :
  keeps bounds single names r ↔
  ∀ k v_min v_max, bounds !! k = Some (v_min, v_max) → k ∈ names →
    greater_equal (field names k r) (compared single k v_min) = true
    ∧ less_equal (field names k r) (compared single k v_max) = true.
Proof.
  unfold keeps, map_Forall, in_range. split.
  - intros H k lo hi Hb Hk. apply andb_true_iff. exact (H k (lo, hi) Hb Hk).
  - intros H k [lo hi] Hb Hk. apply andb_true_iff. by apply H.
Qed.

Lemma retained_records bounds single a r :
  r ∈ records (retained bounds single a)
  ↔ r ∈ records a ∧ keeps bounds single (dtype_names a) r.
Proof. unfold retained. simpl. rewrite list_elem_of_filter. tauto. Qed.

Lemma retained_inert bounds single a :
  (∀ k, is_Some (bounds !! k) → k ∉ dtype_names a) →
  retained bounds single a = a.
Proof.
  intros H. destruct a as [names recs]. unfold retained. simpl in *. f_equal.
  induction recs as [|r recs IH]; [reflexivity|].
  rewrite filter_cons_True; [by rewrite IH|].
  intros k b Hb Hk. exfalso. by apply (H k).
Qed.

Lemma compared_double single k x : k ∉ single → compared single k x = x.
Proof.
  intros Hk. unfold compared, cast_bound.
  by rewrite bool_decide_eq_false_2.
Qed.

Lemma sample_series_on : series_on sample_heap (zip [0] [1]).
Proof.
  repeat constructor. exists sample_events, [], sample_flashes, []. by split.
Qed.

(** C1, as the code has it: for every series of per-bin pairs of event and
    flash record arrays and every bounds mapping, the filter runs without
    error and yields, for each bin, the arrays of exactly the records for
    which every bounded field that exists on the record type has a value
    within its range as numpy compares it: with the bounds rounded to
    single precision when the field is single precision and the bound fits
    it, with the bounds themselves for a double field. A bounded field
    absent from a record type puts no constraint on its records, and
    bounds naming no field of an array leave it whole. *)
Theorem C1_range_filter_as_compared bounds h events_series flashes_series :
  series_on h (zip events_series flashes_series) →
  ∃ outs h',
    gen_filtered_time_series events_series flashes_series bounds h = Ok (outs, h')
    ∧ Forall2 (filtered_at bounds h h') (zip events_series flashes_series) outs
    ∧ (∀ single a r, r ∈ records (retained bounds single a) ↔
         r ∈ records a
         ∧ ∀ k v_min v_max, bounds !! k = Some (v_min, v_max) →
             k ∈ dtype_names a →
             greater_equal (field (dtype_names a) k r)
                           (compared single k v_min) = true
             ∧ less_equal (field (dtype_names a) k r)
                          (compared single k v_max) = true)
    ∧ (∀ single k x, k ∉ single → compared single k x = x)
    ∧ (∀ single a, (∀ k, is_Some (bounds !! k) → k ∉ dtype_names a) →
         retained bounds single a = a).
Proof.
  intros Hs.
  destruct (generate_ok bounds _ h Hs) as (outs & tmp & Hrun & Hf & _).
  exists outs, (h ++ tmp). split; [exact Hrun|]. split; [exact Hf|].
  split; [|split].
  - intros single a r. rewrite retained_records, keeps_unfold. tauto.
  - apply compared_double.
  - apply retained_inert.
Qed.

Lemma single_series_on : series_on single_heap (zip [0] [1]).
Proof.
  repeat constructor. exists single_powers, ["power"], sample_flashes, [].
  by split.
Qed.

Lemma C1_range_filter_as_compared_witness :
  series_on single_heap (zip [0] [1])
  ∧ ∃ outs h',
      gen_filtered_time_series [0] [1] power_bounds single_heap = Ok (outs, h')
      ∧ Forall2 (filtered_at power_bounds single_heap h') (zip [0] [1]) outs.
Proof.
  split; [exact single_series_on|].
  destruct (C1_range_filter_as_compared power_bounds single_heap [0] [1]
              single_series_on)
    as (outs & h' & Hrun & Hf & _).
  exists outs, h'. by split.
Defined.

(** A single-precision field at the upper bound: the value float32(0.1)
    exceeds the bound 0.1, and the record is retained all the same, the
    bound being rounded to float32(0.1) before the comparison. *)
Lemma C1_single_precision_counterexample :
  power_bounds !! "power" = Some (S754_zero false, tenth)
  ∧ less_equal (field (dtype_names single_powers) "power" [single_tenth]) tenth
    = false
  ∧ ∃ outs h',
      gen_filtered_time_series [0] [1] power_bounds single_heap = Ok (outs, h')
      ∧ outs = [(7, 8)]
      ∧ h' !! 0 = Some (NdArr single_powers ["power"])
      ∧ h' !! 7 = Some (NdArr (RecArray ["power"] [[single_tenth]]) ["power"]).
Proof.
  split; [reflexivity|]. split; [vm_compute; reflexivity|].
  eexists _, _. split; [vm_compute; reflexivity|].
  split; [reflexivity|]. split; reflexivity.
Qed.

(** C7: the filter leaves every array that was on the heap before it ran,
    the source event and flash arrays among them, as it was; the outputs
    are new buffers, distinct from every earlier buffer and from each
    other, so that a later write to an output cannot reach a source. *)
Theorem C7_filter_never_mutates_sources bounds h events_series flashes_series
    outs h' :
  series_on h (zip events_series flashes_series) →
  gen_filtered_time_series events_series flashes_series bounds h = Ok (outs, h') →
  (∀ l o, h !! l = Some o → h' !! l = Some o)
  ∧ (∀ l, l ∈ out_locs outs → h !! l = None)
  ∧ NoDup (out_locs outs)
  ∧ (∀ l_out x l o, l_out ∈ out_locs outs → h !! l = Some o →
       <[l_out := x]> h' !! l = Some o).
Proof.
  intros Hs Hrun.
  destruct (run_facts _ _ _ _ _ _ Hs Hrun) as ([tmp ->] & _ & Hfresh & Hnd).
  rewrite Forall_forall in Hfresh.
  split; [|split; [|split]].
  - intros l o Hl. by rewrite lookup_app_l by (by eapply lookup_lt_Some).
  - intros l Hl. apply lookup_ge_None. apply Hfresh in Hl. lia.
  - exact Hnd.
  - intros l_out x l o Hout Hl. apply Hfresh in Hout.
    pose proof (lookup_lt_Some _ _ _ Hl).
    rewrite list_lookup_insert_ne by lia. by rewrite lookup_app_l by lia.
Qed.

Lemma C7_filter_never_mutates_sources_witness :
  ∃ outs h',
    gen_filtered_time_series [0] [1] bounds sample_heap = Ok (outs, h')
    ∧ h' !! 0 = Some (NdRec sample_events)
    ∧ h' !! 1 = Some (NdRec sample_flashes)
    ∧ NoDup (out_locs outs).
Proof.
  eexists _, _. split; [vm_compute; reflexivity|].
  destruct (C7_filter_never_mutates_sources bounds sample_heap [0] [1] _ _
              sample_series_on ltac:(vm_compute; reflexivity))
    as (Hsrc & _ & Hnd & _).
  split; [by apply Hsrc|]. split; [by apply Hsrc|]. exact Hnd.
Defined.







End FilterClaims.

(** ** The claims on the profile block *)

Section ProfileClaims.
Import Py Np Filter FilterSpec Profiles Pipeline Samples.







(** C3: when the flash records of the first bin carry no ['CG'] field, the
    block ends without error having written a single profile data set, the
    normalised IC profiles under the partition kind ['total'], and nothing
    of the CG profiles; when they carry one, it writes two data sets, under
    ['IC'] and under ['CG']. *)
Theorem C3_total_fallback (first : recarray) (rest : list recarray)
    (base_date : Z) (t_edges_seconds : list float) (outfile_base : string)
    (IC_profiles CG_profiles : list (list float)) :
  ("CG" ∉ dtype_names first →
     profile_block (first :: rest) base_date t_edges_seconds outfile_base
       IC_profiles CG_profiles
     = Ok [ WriteProfileData base_date t_edges_seconds outfile_base
              (normalize_profiles IC_profiles (durations_min t_edges_seconds))
              "total";
            SaveFig IC_fig (outfile_base ++ "_total.pdf") ])
  ∧ ("CG" ∈ dtype_names first →
     profile_block (first :: rest) base_date t_edges_seconds outfile_base
       IC_profiles CG_profiles
     = Ok [ WriteProfileData base_date t_edges_seconds outfile_base
              (normalize_profiles IC_profiles (durations_min t_edges_seconds))
              "IC";
            WriteProfileData base_date t_edges_seconds outfile_base
              (normalize_profiles CG_profiles (durations_min t_edges_seconds))
              "CG";
            SaveFig CG_fig (outfile_base ++ "_CG.pdf");
            SaveFig IC_fig (outfile_base ++ "_IC.pdf") ]).
Proof.
  unfold profile_block, write_profiles. simpl. split; intros H.
  - by rewrite bool_decide_eq_false_2.
  - by rewrite bool_decide_eq_true_2.
Qed.

Lemma C3_total_fallback_witness :
  profile_block [sample_flashes_no_CG] 0 sample_edges "out" sample_profiles []
  = Ok [ WriteProfileData 0 sample_edges "out"
           (normalize_profiles sample_profiles (durations_min sample_edges))
           "total";
         SaveFig IC_fig "out_total.pdf" ]
  ∧ profile_block [sample_flashes] 0 sample_edges "out" sample_profiles []
    = Ok [ WriteProfileData 0 sample_edges "out"
             (normalize_profiles sample_profiles (durations_min sample_edges))
             "IC";
           WriteProfileData 0 sample_edges "out"
             (normalize_profiles [] (durations_min sample_edges)) "CG";
           SaveFig CG_fig "out_CG.pdf";
           SaveFig IC_fig "out_IC.pdf" ].
Proof.
  split.
  - apply (C3_total_fallback sample_flashes_no_CG [] 0 sample_edges "out"
             sample_profiles []).
    simpl. by intros ?%list_elem_of_singleton.
  - apply (C3_total_fallback sample_flashes [] 0 sample_edges "out"
             sample_profiles []).
    simpl. repeat constructor.
Defined.

Lemma run_lift {A} (r : result A) (h : heap) :
  lift r h = match r with Ok a => Ok (a, h) | Raise e => Raise e end.
Proof. reflexivity. Qed.

Lemma zip_nil_iff {A B} (xs : list A) (ys : list B) :
  zip xs ys = [] ↔ xs = [] ∨ ys = [].
Proof.
  destruct xs, ys; simpl; split; try tauto; try discriminate;
    intros [|]; discriminate.
Qed.

(** Lines 83-84 on a heap where the series hold arrays. *)
Lemma filtered_series_run bounds h events_series flashes_series :
  series_on h (zip events_series flashes_series) →
  ∃ outs h',
    gen_filtered_time_series events_series flashes_series bounds h
    = Ok (outs, h')
    ∧ Forall2 (filtered_at bounds h h') (zip events_series flashes_series) outs
    ∧ filtered_series events_series flashes_series bounds h
      = match outs with
        | [] => Raise ValueError
        | _ :: _ => Ok ((outs.*1, outs.*2), h')
        end.
Proof.
  intros Hs.
  destruct (generate_ok bounds _ h Hs) as (outs & tmp & Hrun & Hf & _).
  exists outs, (h ++ tmp). split; [exact Hrun|]. split; [exact Hf|].
  unfold filtered_series. rewrite run_bind. unfold gen_filtered_time_series.
  rewrite Hrun, run_lift. by destruct outs.
Qed.

Lemma deref_ok h locs arrays :
  Forall2 (λ l a, ∃ s, h !! l = Some (NdArr a s)) locs arrays →
  deref locs h = Ok (arrays, h).
Proof.
  unfold deref. induction 1 as [|l a locs arrays [s Hl] _ IH]; [reflexivity|].
  cbn [generate]. rewrite run_bind, (as_rec_ok _ _ _ _ Hl).
  by rewrite run_bind, IH.
Qed.

Lemma filtered_flashes bounds h h' bins outs :
  Forall2 (filtered_at bounds h h') bins outs →
  ∃ arrays,
    Forall2 (λ l a, ∃ s, h' !! l = Some (NdArr a s)) outs.*2 arrays
    ∧ Forall2 (λ bin a, ∃ F s, h !! bin.2 = Some (NdArr F s)
                               ∧ dtype_names a = dtype_names F) bins arrays.
Proof.
  induction 1 as [|bin out bins outs (E & se & F & sf & _ & HF & _ & Ho) _ IH].
  - exists []. split; constructor.
  - destruct IH as (arrays & H1 & H2).
    exists (retained bounds sf F :: arrays). split; constructor; eauto.
Qed.

(** C10, as the code has it: the choice between the partitioned and the
    single output reads the ['CG'] field of the dtype of the first bin's
    flashes and nothing else, whatever the later bins hold. The script
    needs at least one bin: with an empty series it stops at the unpacking
    of line 84 with a ValueError, before the check; whenever that
    unpacking succeeds the series is not empty, the check does not fail,
    and the output is the one the first source bin's flashes decide. *)
Theorem C10_first_bin_decides (first : recarray) (rest : list recarray)
    (base_date : Z) (t_edges_seconds : list float) (outfile_base : string)
    (IC_norm CG_norm : list (list float))
    (bounds : gmap string (float * float)) (h : heap)
    (events_series flashes_series : list loc) :
  ("CG" ∈ dtype_names first →
     write_profiles (first :: rest) base_date t_edges_seconds outfile_base
       IC_norm CG_norm
     = Ok [ WriteProfileData base_date t_edges_seconds outfile_base
              IC_norm "IC";
            WriteProfileData base_date t_edges_seconds outfile_base
              CG_norm "CG";
            SaveFig CG_fig (outfile_base ++ "_CG.pdf");
            SaveFig IC_fig (outfile_base ++ "_IC.pdf") ])
  ∧ ("CG" ∉ dtype_names first →
     write_profiles (first :: rest) base_date t_edges_seconds outfile_base
       IC_norm CG_norm
     = Ok [ WriteProfileData base_date t_edges_seconds outfile_base
              IC_norm "total";
            SaveFig IC_fig (outfile_base ++ "_total.pdf") ])
  ∧ (series_on h (zip events_series flashes_series) →
     (events_series = [] ∨ flashes_series = [] →
        filtered_profiles events_series flashes_series bounds base_date
          t_edges_seconds outfile_base IC_norm CG_norm h
        = Raise ValueError)
     ∧ (∀ fl0 F0 s0,
          events_series ≠ [] → head flashes_series = Some fl0 →
          h !! fl0 = Some (NdArr F0 s0) →
          ∃ outs h',
            filtered_profiles events_series flashes_series bounds base_date
              t_edges_seconds outfile_base IC_norm CG_norm h
            = Ok (outs, h')
            ∧ write_profiles [F0] base_date t_edges_seconds outfile_base
                IC_norm CG_norm
              = Ok outs)).
Proof.
  split; [|split].
  - intros H. unfold write_profiles. simpl. by rewrite bool_decide_eq_true_2.
  - intros H. unfold write_profiles. simpl. by rewrite bool_decide_eq_false_2.
  - intros Hs.
    destruct (filtered_series_run bounds h _ _ Hs)
      as (outs & h' & _ & Hf & Hrun).
    unfold filtered_profiles. rewrite run_bind, Hrun.
    pose proof (Forall2_length _ _ _ Hf) as Hlen.
    split.
    + intros Hnil%zip_nil_iff. rewrite Hnil in Hlen.
      by destruct outs.
    + intros fl0 F0 s0 He Hhd H0.
      destruct events_series as [|ev0 evs]; [done|].
      destruct flashes_series as [|fl fls]; [done|].
      injection Hhd as ->.
      destruct (filtered_flashes _ _ _ _ _ Hf) as (arrays & Hder & Hsrc).
      destruct outs as [|o outs]; [discriminate Hlen|].
      cbn [snd]. rewrite run_bind, (deref_ok _ _ _ Hder).
      inversion Hsrc as [|? a ? arrays' (F & s & HF & Hn) _]; subst.
      simpl in HF. rewrite H0 in HF. injection HF as <- <-.
      rewrite run_lift. unfold write_profiles. simpl. rewrite Hn.
      destruct (bool_decide _); eauto.
Qed.

Lemma C10_first_bin_decides_witness :
  (∃ outs h',
     filtered_profiles [0] [1] Filter.bounds 0 sample_edges "out"
       sample_profiles [] sample_heap
     = Ok (outs, h')
     ∧ write_profiles [sample_flashes] 0 sample_edges "out" sample_profiles []
       = Ok outs)
  ∧ filtered_profiles [0] [] Filter.bounds 0 sample_edges "out"
      sample_profiles [] sample_heap
    = Raise ValueError.
Proof.
  destruct (C10_first_bin_decides sample_flashes [] 0 sample_edges "out"
              sample_profiles [] Filter.bounds sample_heap [0] [1])
    as (_ & _ & Hrun).
  destruct (C10_first_bin_decides sample_flashes [] 0 sample_edges "out"
              sample_profiles [] Filter.bounds sample_heap [0] [])
    as (_ & _ & Hempty).
  split.
  - destruct Hrun as [_ Hok].
    + repeat constructor. exists sample_events, [], sample_flashes, [].
      by split.
    + by apply (Hok 1 sample_flashes []).
  - destruct Hempty as [Hnil _]; [constructor|]. apply Hnil. by right.
Defined.

(** The out-of-range index does not occur in the script: on an empty
    series it is the unpacking of line 84 that fails, with a ValueError. *)
Lemma C10_empty_series_counterexample :
  filtered_profiles [] [] Filter.bounds 0 sample_edges "out" sample_profiles []
    sample_heap
  = Raise ValueError
  ∧ filtered_profiles [] [] Filter.bounds 0 sample_edges "out" sample_profiles
      [] sample_heap
    ≠ Raise IndexError.
Proof. split; [reflexivity | discriminate]. Qed.

End ProfileClaims.

(** ** The claim on the statistics writer *)

Section SizeStatsClaims.
Import Py SizeStats.

Context {value : Type} (format : value → string).

Lemma stat_vals_ok (stats : gmap string value) :
  (∀ k, k ∈ stat_keys → is_Some (stats !! k)) →
  ∃ start_t end_t number mean variance skewness kurtosis energy energy_per_flash,
    stats !! "start_isoformat" = Some start_t
    ∧ stats !! "end_isoformat" = Some end_t
    ∧ stats !! "number" = Some number
    ∧ stats !! "mean" = Some mean
    ∧ stats !! "variance" = Some variance
    ∧ stats !! "skewness" = Some skewness
    ∧ stats !! "kurtosis" = Some kurtosis
    ∧ stats !! "energy" = Some energy
    ∧ stats !! "energy_per_flash" = Some energy_per_flash
    ∧ stat_vals value stats stat_keys
      = Ok [start_t; end_t; number; mean; variance; skewness; kurtosis;
            energy; energy_per_flash].
Proof.
  intros H.
  assert (Hk : Forall (λ k, is_Some (stats !! k)) stat_keys)
    by (by apply Forall_forall).
  unfold stat_keys in Hk.
  repeat match goal with
         | H : Forall _ (_ :: _) |- _ =>
             apply Forall_cons in H; destruct H as [[? ?] H]
         end.
  do 9 eexists. repeat (split; [eassumption|]).
  unfold stat_keys, stat_vals, getitem.
  repeat match goal with
         | H : stats !! _ = Some _ |- _ => rewrite H; clear H
         end.
  reflexivity.
Qed.

(** C4: the statistics file opens with the header naming start time, end
    time, number, mean, variance, skewness, kurtosis, energy and
    energy_per_flash, and then holds one line per record, in the order of
    the records, whose nine values are those fields in that order. *)
Theorem C4_size_stat_fields (size_stats : list (gmap string value)) :
  (∀ stats, stats ∈ size_stats → ∀ k, k ∈ stat_keys → is_Some (stats !! k)) →
  ∃ lines,
    write_size_stat_data value format size_stats
    = Ok ("# start_isoformat, end_isoformat, number, mean, variance, skewness, kurtosis, energy, energy_per_flash
" :: lines)
    ∧ length lines = length size_stats
    ∧ ∀ i stats, size_stats !! i = Some stats →
        ∃ start_t end_t number mean variance skewness kurtosis energy
          energy_per_flash,
          stats !! "start_isoformat" = Some start_t
          ∧ stats !! "end_isoformat" = Some end_t
          ∧ stats !! "number" = Some number
          ∧ stats !! "mean" = Some mean
          ∧ stats !! "variance" = Some variance
          ∧ stats !! "skewness" = Some skewness
          ∧ stats !! "kurtosis" = Some kurtosis
          ∧ stats !! "energy" = Some energy
          ∧ stats !! "energy_per_flash" = Some energy_per_flash
          ∧ lines !! i
            = Some (format start_t ++ ", " ++ format end_t ++ ", "
                    ++ format number ++ ", " ++ format mean ++ ", "
                    ++ format variance ++ ", " ++ format skewness ++ ", "
                    ++ format kurtosis ++ ", " ++ format energy ++ ", "
                    ++ format energy_per_flash ++ "
")%string.
Proof.
  intros Hall. unfold write_size_stat_data.
  assert (∃ lines,
    write_rows value format size_stats = Ok lines
    ∧ length lines = length size_stats
    ∧ ∀ i stats, size_stats !! i = Some stats →
        ∃ v0 v1 v2 v3 v4 v5 v6 v7 v8,
          stats !! "start_isoformat" = Some v0
          ∧ stats !! "end_isoformat" = Some v1
          ∧ stats !! "number" = Some v2
          ∧ stats !! "mean" = Some v3
          ∧ stats !! "variance" = Some v4
          ∧ stats !! "skewness" = Some v5
          ∧ stats !! "kurtosis" = Some v6
          ∧ stats !! "energy" = Some v7
          ∧ stats !! "energy_per_flash" = Some v8
          ∧ lines !! i
            = Some (format v0 ++ ", " ++ format v1 ++ ", " ++ format v2 ++ ", "
                    ++ format v3 ++ ", " ++ format v4 ++ ", " ++ format v5
                    ++ ", " ++ format v6 ++ ", " ++ format v7 ++ ", "
                    ++ format v8 ++ "
")%string) as (lines & -> & Hlen & Hrows).
  { induction size_stats as [|stats rest IH].
    - exists []. repeat split. intros i stats Hi. by rewrite lookup_nil in Hi.
    - destruct IH as (lines & Hrun & Hlen & Hrows).
      { intros s Hs. apply Hall. by right. }
      destruct (stat_vals_ok stats (Hall stats ltac:(by left)))
        as (v0 & v1 & v2 & v3 & v4 & v5 & v6 & v7 & v8 & H0 & H1 & H2 & H3
            & H4 & H5 & H6 & H7 & H8 & Hvals).
      eexists (_ :: lines). split; [|split].
      + cbn [write_rows]. rewrite Hvals. cbn [line_template]. rewrite Hrun.
        reflexivity.
      + simpl. by rewrite Hlen.
      + intros [|i] s Hi.
        * injection Hi as <-. exists v0, v1, v2, v3, v4, v5, v6, v7, v8.
          by repeat (split; [assumption|]).
        * by apply Hrows. }
  exists lines. split; [reflexivity|]. by split.
Qed.

End SizeStatsClaims.

Section SizeStatsWitness.
Import Py SizeStats Samples.

Lemma C4_size_stat_fields_witness :
  ∃ lines,
    write_size_stat_data string id [sample_stats]
    = Ok ("# start_isoformat, end_isoformat, number, mean, variance, skewness, kurtosis, energy, energy_per_flash
" :: lines)
    ∧ length lines = 1.
Proof.
  destruct (C4_size_stat_fields id [sample_stats]) as (lines & Hrun & Hlen & _).
  - intros stats ->%list_elem_of_singleton k Hk.
    unfold stat_keys in Hk.
    repeat (apply elem_of_cons in Hk; destruct Hk as [->|Hk]; [by eexists|]).
    by apply elem_of_nil in Hk.
  - exists lines. by split.
Defined.

End SizeStatsWitness.

(** ** The claims on the grid-subset reporting pass *)

Section GridClaims.
Import Py Np Grid.

Context (t_start t_end basedate : Z).
Context (isoformat str_datetime : Z → string) (str_float : float → string).
Context (total_seconds : Z → float) (in_lasso : cell → bool).
Context (reduce_max reduce_sum : list float → float).
Context (percentile : list float → Z → float).

Local Abbreviation row' :=
  (row isoformat str_datetime str_float in_lasso reduce_max reduce_sum percentile).
Local Abbreviation plot' :=
  (plot_lasso_grid_subset basedate isoformat str_datetime str_float
     total_seconds in_lasso reduce_max reduce_sum percentile).
Local Abbreviation loop' :=
  (grid_loop t_start t_end basedate isoformat str_datetime str_float
     total_seconds in_lasso reduce_max reduce_sum percentile).
Local Abbreviation report' :=
  (grid_report t_start t_end basedate isoformat str_datetime str_float
     total_seconds in_lasso reduce_max reduce_sum percentile).
Local Abbreviation cells' := (cells basedate total_seconds).

Lemma string_app_assoc (s1 s2 s3 : string) :
  ((s1 ++ s2) ++ s3 = s1 ++ (s2 ++ s3))%string.
Proof.
  induction s1 as [|c s1 IH]; [reflexivity|].
  change (String c ((s1 ++ s2) ++ s3) = String c (s1 ++ (s2 ++ s3)))%string.
  by rewrite IH.
Qed.

Lemma mask_select_map {A} (f : A → bool) (xs : list A) :
  mask_select (map f xs) xs = List.filter f xs.
Proof.
  induction xs as [|x xs IH]; [reflexivity|]. simpl. rewrite IH.
  by destruct (f x).
Qed.

Lemma filtered_nonempty (a : list cell) :
  nonzero_filtered in_lasso a ≠ [] → filtered in_lasso a ≠ [].
Proof.
  unfold nonzero_filtered, filtered, filter_mask.
  rewrite zip_with_map_same, !mask_select_map.
  induction a as [|c a IH]; [done|]. simpl.
  destruct (in_lasso c); simpl; [done|]. exact IH.
Qed.

Lemma row_ok (t : Z) (a : list cell) :
  ∃ fields,
    row' t a = Ok fields
    ∧ length fields = 6
    ∧ (nonzero_filtered in_lasso a = [] →
       fields = [str_datetime t; "0"; "0"; "0.0"; "0.0"; "0.0"]).
Proof.
  unfold row. destruct (nonzero_filtered in_lasso a) as [|c nz] eqn:Hnz.
  - simpl. eexists. by repeat split.
  - assert (Hf : filtered in_lasso a ≠ []).
    { apply filtered_nonempty. by rewrite Hnz. }
    destruct (filtered in_lasso a) as [|c' f]; [done|]. simpl.
    eexists. by repeat split.
Qed.

Lemma plot_ok (datalog : list string) (t : Z) (xedge yedge : list float)
    (data : ndarray2) :
  shapes_agree xedge yedge data = true →
  ∃ fields,
    plot' datalog t xedge yedge data
    = Ok (datalog ++ [(join ", " fields ++ "
")%string])
    ∧ length fields = 6
    ∧ (nonzero_filtered in_lasso (cells' t xedge yedge data) = [] →
       fields = [str_datetime t; "0"; "0"; "0.0"; "0.0"; "0.0"]).
Proof.
  intros Hshape. unfold plot_lasso_grid_subset. rewrite Hshape.
  destruct (row_ok t (cells' t xedge yedge data)) as (fields & -> & Hlen & Hdeg).
  by exists fields.
Qed.

Local Abbreviation processed := (λ s : step, in_window t_start t_end (step_t s)).
Local Abbreviation well_shaped :=
  (λ s : step, shapes_agree (step_xedge s) (step_yedge s) (step_data s) = true).

Lemma grid_loop_rows (GC : list step) :
  (∀ s, s ∈ GC → processed s = true → well_shaped s) →
  ∀ datalog, ∃ rows,
    loop' GC datalog = Ok (datalog ++ rows)
    ∧ length rows = length (List.filter processed GC).
Proof.
  induction GC as [|s GC IH]; intros Hwf datalog.
  - exists []. by rewrite app_nil_r.
  - assert (Hwf' : ∀ s', s' ∈ GC → processed s' = true → well_shaped s')
      by (intros s' Hs'; apply Hwf; by right).
    cbn [grid_loop List.filter].
    destruct (in_window t_start t_end (step_t s)) eqn:Hin.
    + destruct (plot_ok datalog (step_t s) (step_xedge s) (step_yedge s)
                  (step_data s)) as (fields & -> & _).
      { apply Hwf; [by left | exact Hin]. }
      destruct (IH Hwf' (datalog ++ [(join ", " fields ++ "
")%string])) as (rows & -> & Hlen).
      eexists (_ :: rows). rewrite <- app_assoc. split; [reflexivity|].
      simpl. by rewrite Hlen.
    + exact (IH Hwf' datalog).
Qed.

(** C6: a processed grid time step, its data shaped as its edges say,
    appends exactly one row of six fields to the CSV log, without error;
    when no cell is both inside the lasso and positive the row is the time
    followed by the zero sentinels 0, 0, 0.0, 0.0, 0.0. Over a whole grid
    collection the CSV file holds, after its header, one row per processed
    step. *)
Theorem C6_one_row_per_step (datalog : list string) (t : Z)
    (xedge yedge : list float) (data : ndarray2) (GC : list step) :
  shapes_agree xedge yedge data = true →
  (∀ s, s ∈ GC → processed s = true → well_shaped s) →
  (∃ fields,
     plot' datalog t xedge yedge data
     = Ok (datalog ++ [(join ", " fields ++ "
")%string])
     ∧ length fields = 6
     ∧ (nonzero_filtered in_lasso (cells' t xedge yedge data) = [] →
        (join ", " fields ++ "
")%string
        = (str_datetime t ++ ", 0, 0, 0.0, 0.0, 0.0
")%string))
  ∧ (∃ rows,
       report' GC = Ok (datalog_header :: rows)
       ∧ length rows = length (List.filter processed GC)).
Proof.
  intros Hshape Hwf. split.
  - destruct (plot_ok datalog t xedge yedge data Hshape)
      as (fields & Hrun & Hlen & Hdeg).
    exists fields. split; [exact Hrun|]. split; [exact Hlen|].
    intros Hnz. rewrite (Hdeg Hnz). simpl.
    by rewrite string_app_assoc.
  - unfold grid_report. by apply (grid_loop_rows GC Hwf [datalog_header]).
Qed.

(** C5, as the code has it: modelled from the spec, a timestamp outside
    the half-open window [t_start, t_end), and so t_end itself, is assigned
    to no bin; the grid pass, however, lets through the closed window: a
    step outside [t_start, t_end] is skipped without a row and without an
    error, a step inside it, t_end included, is processed. *)
Theorem C5_window_amended (bin_width : Z) :
  (∀ t, ¬ (t_start ≤ t < t_end)%Z → assign t_start t_end bin_width t = None)
  ∧ assign t_start t_end bin_width t_end = None
  ∧ (∀ s datalog, ¬ (t_start ≤ step_t s ≤ t_end)%Z →
       loop' [s] datalog = Ok datalog)
  ∧ (∀ s datalog, (t_start ≤ step_t s ≤ t_end)%Z →
       loop' [s] datalog
       = plot' datalog (step_t s) (step_xedge s) (step_yedge s) (step_data s))
  ∧ (∀ GC datalog,
       (∀ s, s ∈ GC → processed s = true → well_shaped s) →
       ∃ rows, loop' GC datalog = Ok (datalog ++ rows)
               ∧ length rows = length (List.filter processed GC)).
Proof.
  assert (Hassign : ∀ t, ¬ (t_start ≤ t < t_end)%Z →
                         assign t_start t_end bin_width t = None).
  { intros t Ht. unfold assign.
    destruct (t_start <=? t)%Z eqn:H1, (t <? t_end)%Z eqn:H2; try reflexivity.
    exfalso. apply Ht. lia. }
  split; [exact Hassign|]. split; [apply Hassign; lia|].
  split; [|split].
  - intros s datalog Hout. cbn [grid_loop]. unfold in_window.
    destruct (step_t s >=? t_start)%Z eqn:H1, (step_t s <=? t_end)%Z eqn:H2;
      try reflexivity.
    exfalso. apply Hout. apply Z.geb_le in H1. lia.
  - intros s datalog [H1 H2]. cbn [grid_loop]. unfold in_window.
    apply Z.geb_le in H1. apply Z.leb_le in H2. rewrite H1, H2. simpl.
    by destruct (plot' _ _ _ _ _).
  - intros GC datalog Hwf. by apply grid_loop_rows.
Qed.

End GridClaims.

Section GridWitnesses.
Import Py Np Grid Samples.

Lemma C6_one_row_per_step_witness :
  sample_grid_loop [sample_step 5 (S754_zero false)] []
  = Ok ["5, 0, 0, 0.0, 0.0, 0.0
"]
  ∧ ∃ rows,
      sample_grid_report
        [sample_step 5 (S754_zero false); sample_step 11 (f64 3 0);
         sample_step 7 (f64 3 0)]
      = Ok (datalog_header :: rows)
      ∧ length rows = 2.
Proof.
  destruct (C6_one_row_per_step 0 10 0 sample_isoformat sample_str_datetime
              sample_str_float sample_total_seconds sample_in_lasso
              sample_reduce sample_reduce sample_percentile
              [] 5 [f64 0 0; f64 1 0] [f64 0 0; f64 1 0]
              (NdArray2 (1, 1) [S754_zero false])
              [sample_step 5 (S754_zero false); sample_step 11 (f64 3 0);
               sample_step 7 (f64 3 0)])
    as [(fields & Hrun & _ & Hdeg) (rows & Hloop & Hlen)].
  - vm_compute. reflexivity.
  - intros s Hs _. repeat (apply elem_of_cons in Hs; destruct Hs as [->|Hs];
      [vm_compute; reflexivity|]). by apply elem_of_nil in Hs.
  - split.
    + unfold sample_grid_loop. cbn [grid_loop].
      change (in_window 0 10 (step_t (sample_step 5 (S754_zero false)))) with true.
      cbv iota. cbn [sample_step step_t step_xedge step_yedge step_data].
      rewrite Hrun. rewrite Hdeg by (vm_compute; reflexivity). reflexivity.
    + exists rows. split; [exact Hloop | exact Hlen].
Defined.

Lemma C5_window_amended_witness :
  assign 0 10 3 10 = None
  ∧ sample_grid_loop [sample_step 11 (f64 3 0)] [] = Ok []
  ∧ sample_grid_loop [sample_step 10 (f64 3 0)] []
    = plot_lasso_grid_subset 0 sample_isoformat sample_str_datetime
        sample_str_float sample_total_seconds sample_in_lasso sample_reduce
        sample_reduce sample_percentile [] 10 [f64 0 0; f64 1 0]
        [f64 0 0; f64 1 0] (NdArray2 (1, 1) [f64 3 0]).
Proof.
  destruct (C5_window_amended 0 10 0 sample_isoformat sample_str_datetime
              sample_str_float sample_total_seconds sample_in_lasso
              sample_reduce sample_reduce sample_percentile 3)
    as (_ & Hend & Hout & Hin & _).
  split; [exact Hend|]. split.
  - apply Hout. simpl. lia.
  - apply (Hin (sample_step 10 (f64 3 0))). simpl. lia.
Defined.

(** The half-open window does not govern the grid pass: a grid step
    timestamped exactly at t_end, outside [t_start, t_end), is processed
    and gets its row. *)
Lemma C5_half_open_counterexample :
  ¬ (0 ≤ step_t (sample_step 10 (f64 3 0)) < 10)%Z
  ∧ sample_grid_loop [sample_step 10 (f64 3 0)] []
    = Ok ["T10, x, x, x, x, x
"]
  ∧ ¬ (∀ s : step, ¬ (0 ≤ step_t s < 10)%Z → sample_grid_loop [s] [] = Ok []).
Proof.
  assert (Hout : ¬ (0 ≤ step_t (sample_step 10 (f64 3 0)) < 10)%Z)
    by (simpl; lia).
  assert (Hrun : sample_grid_loop [sample_step 10 (f64 3 0)] []
                 = Ok ["T10, x, x, x, x, x
"]) by (vm_compute; reflexivity).
  split; [exact Hout|]. split; [exact Hrun|].
  intros H. specialize (H (sample_step 10 (f64 3 0)) Hout).
  rewrite Hrun in H. discriminate H.
Qed.

End GridWitnesses.

(** * Further properties of the script *)

(** ** The filter: shape of its result *)

Section FilterExtras.
Import Py Np Filter FilterSpec Pipeline Runs Samples SingleSamples MoreSamples.

Lemma filter_run_facts bounds h events_series flashes_series outs h' :
  series_on h (zip events_series flashes_series) →
  gen_filtered_time_series events_series flashes_series bounds h = Ok (outs, h') →
  Forall2 (filtered_at bounds h h') (zip events_series flashes_series) outs.
Proof.
  intros Hs Hrun. unfold gen_filtered_time_series in Hrun.
  destruct (generate_ok bounds _ h Hs) as (outs0 & tmp & Hrun0 & H1 & _).
  rewrite Hrun0 in Hrun. by injection Hrun as <- <-.
Qed.

Lemma filter_yields_retained bounds o o' :
  filter_yields bounds o o' →
  ∃ a single, o = NdArr a single ∧ o' = NdArr (retained bounds single a) single.
Proof.
  intros (h & evs & fls & outs & h' & i & bin & out & Hs & Hrun & Hb & Ho & Hso).
  pose proof (filter_run_facts _ _ _ _ _ _ Hs Hrun) as Hf.
  destruct (Forall2_lookup_lr _ _ _ _ _ _ Hf Hb Ho)
    as (E & se & F & sf & He & Hfl & Hoe & Hof).
  destruct Hso as [[H1 H2]|[H1 H2]].
  - exists E, se. split; congruence.
  - exists F, sf. split; congruence.
Qed.

Lemma sample_yields :
  filter_yields bounds (NdRec sample_flashes) (NdRec sample_flashes_filt).
Proof.
  exists sample_heap, [0], [1], [(7, 8)], sample_final, 0, (0, 1), (7, 8).
  split; [repeat constructor; by exists sample_events, [], sample_flashes, []|].
  split; [vm_compute; reflexivity|].
  split; [reflexivity|]. split; [reflexivity|].
  right. split; vm_compute; reflexivity.
Qed.

Lemma sample_yields_single :
  filter_yields power_bounds (NdArr single_powers ["power"])
    (NdArr (RecArray ["power"] [[single_tenth]]) ["power"]).
Proof.
  eexists single_heap, [0], [1], _, _, 0, (0, 1), _.
  split; [repeat constructor;
          by exists single_powers, ["power"], sample_flashes, []|].
  split; [vm_compute; reflexivity|].
  split; [reflexivity|]. split; [reflexivity|].
  left. split; vm_compute; reflexivity.
Qed.

(** X1: the filter yields one pair per common bin of the two series: as
    many as the shorter series has, the surplus of the longer one being
    dropped without an error. *)
Theorem X1_one_output_per_common_bin bounds h events_series flashes_series
    outs h' :
  series_on h (zip events_series flashes_series) →
  gen_filtered_time_series events_series flashes_series bounds h = Ok (outs, h') →
  length outs = length events_series `min` length flashes_series.
Proof.
  intros Hs Hrun.
  pose proof (filter_run_facts _ _ _ _ _ _ Hs Hrun) as Hf.
  apply Forall2_length in Hf. rewrite <- Hf. apply length_zip_with.
Qed.

Lemma X1_one_output_per_common_bin_witness :
  length [(7, 8)] = length [0] `min` length [1; 0].
Proof.
  apply (X1_one_output_per_common_bin bounds sample_heap [0] [1; 0] [(7, 8)]
           sample_final).
  - repeat constructor. by exists sample_events, [], sample_flashes, [].
  - vm_compute. reflexivity.
Defined.

(** X2: an output has the dtype of its source, field names and
    precisions, and its records are records of the source in their
    original order: the filter adds, changes and reorders nothing. *)
Theorem X2_output_is_subsequence bounds a single a' single' :
  filter_yields bounds (NdArr a single) (NdArr a' single') →
  single' = single
  ∧ dtype_names a' = dtype_names a
  ∧ records a' `sublist_of` records a.
Proof.
  intros (a0 & s0 & [= -> ->] & [= -> ->])%filter_yields_retained.
  split; [reflexivity|]. split; [reflexivity|]. apply sublist_filter.
Qed.

Lemma X2_output_is_subsequence_witness :
  [] = ([] : list string)
  ∧ dtype_names sample_flashes_filt = dtype_names sample_flashes
  ∧ records sample_flashes_filt `sublist_of` records sample_flashes.
Proof. exact (X2_output_is_subsequence bounds _ _ _ _ sample_yields). Defined.

(** X3: filtering is idempotent: a run of the filter with the same bounds
    on an array that the filter yielded yields that array again. *)
Theorem X3_filter_idempotent bounds o o' o'' :
  filter_yields bounds o o' → filter_yields bounds o' o'' → o'' = o'.
Proof.
  intros (a & s & -> & ->)%filter_yields_retained
         (a' & s' & [= <- <-] & ->)%filter_yields_retained.
  unfold retained. simpl. do 2 f_equal.
  apply list_filter_filter_l. done.
Qed.

Lemma sample_yields_again :
  filter_yields bounds (NdRec sample_flashes_filt) (NdRec sample_flashes_filt).
Proof.
  eexists sample_final, [7], [8], _, _, 0, (7, 8), _.
  split.
  { repeat constructor. eexists _, _, _, _. split; vm_compute; reflexivity. }
  split; [vm_compute; reflexivity|].
  split; [reflexivity|]. split; [reflexivity|].
  right. split; vm_compute; reflexivity.
Qed.

Lemma X3_filter_idempotent_witness :
  NdRec sample_flashes_filt = NdRec sample_flashes_filt.
Proof.
  exact (X3_filter_idempotent bounds _ _ _ sample_yields sample_yields_again).
Defined.

(** X4: tightening the bounds mapping can only remove records: with every
    bound of [bounds1] also in [bounds2], what the second yields is a
    subsequence of what the first yields. *)
Theorem X4_more_bounds_fewer_records bounds1 bounds2 o a1 single1 a2 single2 :
  bounds1 ⊆ bounds2 →
  filter_yields bounds1 o (NdArr a1 single1) →
  filter_yields bounds2 o (NdArr a2 single2) →
  records a2 `sublist_of` records a1.
Proof.
  intros Hsub (a & s & -> & [= -> ->])%filter_yields_retained
              (a' & s' & [= <- <-] & [= -> ->])%filter_yields_retained.
  unfold retained. simpl.
  rewrite <- (list_filter_filter_l (keeps bounds2 s (dtype_names a))
                (keeps bounds1 s (dtype_names a))).
  - apply sublist_filter.
  - intros r Hk k b Hb. apply Hk. by eapply lookup_weaken.
Qed.

Lemma sample_yields_unbounded :
  filter_yields ∅ (NdRec sample_flashes) (NdRec sample_flashes).
Proof.
  eexists sample_heap, [0], [1], _, _, 0, (0, 1), _.
  split; [repeat constructor; by exists sample_events, [], sample_flashes, []|].
  split; [vm_compute; reflexivity|].
  split; [reflexivity|]. split; [reflexivity|].
  right. split; vm_compute; reflexivity.
Qed.

Lemma X4_more_bounds_fewer_records_witness :
  records sample_flashes_filt `sublist_of` records sample_flashes.
Proof.
  apply (X4_more_bounds_fewer_records ∅ bounds (NdRec sample_flashes)
           sample_flashes [] sample_flashes_filt []).
  - apply map_empty_subseteq.
  - exact sample_yields_unbounded.
  - exact sample_yields.
Defined.

(** X5: what the filter yields for an array depends on that array and on
    the bounds only: not on the other array of the bin (events are not
    filtered by the fate of their flashes), the other bins or the heap. *)
Theorem X5_output_depends_on_source_only bounds o o1 o2 :
  filter_yields bounds o o1 → filter_yields bounds o o2 → o1 = o2.
Proof.
  intros (a & s & -> & ->)%filter_yields_retained
         (a' & s' & [= <- <-] & ->)%filter_yields_retained.
  reflexivity.
Qed.

Lemma sample_yields_as_events :
  filter_yields bounds (NdRec sample_flashes) (NdRec sample_flashes_filt).
Proof.
  eexists [NdRec sample_flashes; NdRec sample_events], [0], [1], _, _, 0,
          (0, 1), _.
  split.
  { repeat constructor. eexists _, _, _, _. split; vm_compute; reflexivity. }
  split; [vm_compute; reflexivity|].
  split; [reflexivity|]. split; [reflexivity|].
  left. split; vm_compute; reflexivity.
Qed.

Lemma X5_output_depends_on_source_only_witness :
  NdRec sample_flashes_filt = NdRec sample_flashes_filt.
Proof.
  exact (X5_output_depends_on_source_only bounds _ _ _ sample_yields
           sample_yields_as_events).
Defined.

(** The IEEE order is transitive, and [>=] is [<=] read backwards. *)
Lemma less_equal_trans x y z :
  less_equal x y = true → less_equal y z = true → less_equal x z = true.
Proof.
  unfold less_equal.
  destruct x as [sx|sx| |sx mx ex], y as [sy|sy| |sy my ey],
           z as [sz|sz| |sz mz ez]; simpl;
    try discriminate; try reflexivity;
    try (destruct sx; try discriminate; try reflexivity;
         destruct sy; try discriminate; try reflexivity;
         destruct sz; try discriminate; reflexivity);
    try (destruct sx; try discriminate; try reflexivity;
         destruct sz; try discriminate; reflexivity);
    try (destruct sy; try discriminate; try reflexivity;
         destruct sz; try discriminate; reflexivity);
    try (destruct sx; try discriminate; try reflexivity;
         destruct sy; try discriminate; reflexivity).
  all: destruct sx, sy, sz; try discriminate; try reflexivity; intros H1 H2;
    change (PosDef.Pos.compare_cont Eq) with Pos.compare in *;
    repeat match goal with
    | |- context [(?a ?= ?b)%Z] => destruct (Z.compare_spec a b)
    | H : context [(?a ?= ?b)%Z] |- _ => destruct (Z.compare_spec a b)
    | |- context [(?a ?= ?b)%positive] => destruct (Pos.compare_spec a b)
    | H : context [(?a ?= ?b)%positive] |- _ =>
        destruct (Pos.compare_spec a b)
    end;
    simpl in *; try discriminate; try reflexivity; try lia.
Qed.

Lemma greater_equal_flip x y : greater_equal x y = less_equal y x.
Proof.
  unfold greater_equal, less_equal.
  destruct (SFcompare x y) as [c|] eqn:Hc.
  - rewrite (SFcompare_antisym _ _ _ Hc). by destruct c.
  - destruct (SFcompare y x) as [c|] eqn:Hc'; [|reflexivity].
    apply SFcompare_antisym in Hc'. congruence.
Qed.

Lemma in_range_bounds_ordered lo hi x :
  in_range lo hi x = true → less_equal lo hi = true.
Proof.
  unfold in_range. rewrite andb_true_iff, greater_equal_flip.
  intros [H1 H2]. by eapply less_equal_trans.
Qed.

(** X6: a bound whose minimum, as compared, is not below or equal to its
    maximum (an inverted range, or a NaN end) empties every array that has
    the bounded field: no record can pass both comparisons. For a
    double-precision field the ends are compared as given. *)
Theorem X6_inverted_range_empties bounds a single a' single' k v_min v_max :
  filter_yields bounds (NdArr a single) (NdArr a' single') →
  bounds !! k = Some (v_min, v_max) →
  k ∈ dtype_names a →
  less_equal (compared single k v_min) (compared single k v_max) = false →
  records a' = []
  ∧ (k ∉ single → compared single k v_min = v_min
                   ∧ compared single k v_max = v_max).
Proof.
  intros (a0 & s0 & [= -> ->] & [= -> ->])%filter_yields_retained Hb Hk Hinv.
  split; [|intros Hd; by rewrite !compared_double].
  destruct (records (retained bounds s0 a0)) as [|r rest] eqn:Hrec;
    [reflexivity|].
  assert (Hr : r ∈ records (retained bounds s0 a0)) by (rewrite Hrec; by left).
  apply retained_records in Hr as [_ Hkeep].
  specialize (Hkeep k (v_min, v_max) Hb Hk). simpl in Hkeep.
  apply in_range_bounds_ordered in Hkeep. congruence.
Qed.

Lemma X6_inverted_range_empties_witness :
  records (RecArray ["area"; "CG"] []) = [].
Proof.
  apply (X6_inverted_range_empties
           {[ "area" := (f64 5 0, f64 3 0) ]} sample_flashes []
           (RecArray ["area"; "CG"] []) [] "area" (f64 5 0) (f64 3 0)).
  - eexists sample_heap, [0], [1], _, _, 0, (0, 1), _.
    split; [repeat constructor;
            by exists sample_events, [], sample_flashes, []|].
    split; [vm_compute; reflexivity|].
    split; [reflexivity|]. split; [reflexivity|].
    right. split; vm_compute; reflexivity.
  - reflexivity.
  - vm_compute. repeat constructor.
  - vm_compute. reflexivity.
Defined.

Lemma script_bounds_exact single :
  compared single "area" (S754_zero false) = S754_zero false
  ∧ compared single "area" (f64 10000000000 0) = f64 10000000000 0.
Proof.
  unfold compared, cast_bound.
  destruct (bool_decide ("area" ∈ single)); split; vm_compute; reflexivity.
Qed.

(** X7: with the bounds of the script, area between 0.0 and 1.0e10, an
    array without an [area] field is yielded whole, and of an array with
    one exactly the records with 0.0 <= area <= 1.0e10 are kept, whether
    the field is single or double precision: both bounds are
    single-precision numbers. *)
Theorem X7_script_bounds a single a' single' :
  filter_yields Filter.bounds (NdArr a single) (NdArr a' single') →
  ("area" ∉ dtype_names a → a' = a)
  ∧ ("area" ∈ dtype_names a →
     ∀ r, r ∈ records a' ↔
          r ∈ records a
          ∧ greater_equal (field (dtype_names a) "area" r) (S754_zero false)
            = true
          ∧ less_equal (field (dtype_names a) "area" r) (f64 10000000000 0)
            = true).
Proof.
  intros (a0 & s0 & [= -> ->] & [= -> ->])%filter_yields_retained.
  destruct (script_bounds_exact s0) as [Hlo Hhi]. split.
  - intros Hno. apply retained_inert. intros k [b Hb].
    unfold bounds in Hb. apply lookup_singleton_Some in Hb as [<- _]. done.
  - intros Hk r. rewrite retained_records, keeps_unfold. split.
    + intros [Hr Hkeep]. split; [done|].
      specialize (Hkeep "area" _ _ eq_refl Hk). by rewrite Hlo, Hhi in Hkeep.
    + intros (Hr & Hge & Hle). split; [done|].
      intros k lo hi Hb _. unfold bounds in Hb.
      apply lookup_singleton_Some in Hb as [<- [= <- <-]].
      change (binary_round 53 1024 false 10000000000 0)
        with (f64 10000000000 0).
      by rewrite Hlo, Hhi.
Qed.

Lemma X7_script_bounds_witness :
  [f64 20000000000 0; S754_zero false] ∈ records sample_flashes_filt ↔
  [f64 20000000000 0; S754_zero false] ∈ records sample_flashes
  ∧ greater_equal
      (field (dtype_names sample_flashes) "area"
         [f64 20000000000 0; S754_zero false]) (S754_zero false) = true
  ∧ less_equal
      (field (dtype_names sample_flashes) "area"
         [f64 20000000000 0; S754_zero false]) (f64 10000000000 0) = true.
Proof.
  destruct (X7_script_bounds sample_flashes [] sample_flashes_filt []
              sample_yields) as [_ Hin].
  apply Hin. vm_compute. repeat constructor.
Defined.

(** X8: a record with a NaN in a bounded field that its type has is
    excluded, whatever the bounds are and whether the field is single or
    double precision. *)
Theorem X8_nan_excluded_any_precision bounds a single a' single' r k :
  filter_yields bounds (NdArr a single) (NdArr a' single') →
  is_Some (bounds !! k) →
  k ∈ dtype_names a →
  isnan (field (dtype_names a) k r) = true →
  r ∉ records a'.
Proof.
  intros (a0 & s0 & [= -> ->] & [= -> ->])%filter_yields_retained
         [[lo hi] Hb] Hk Hnan.
  rewrite retained_records. intros [_ Hkeep].
  specialize (Hkeep k (lo, hi) Hb Hk). simpl in Hkeep.
  by rewrite in_range_nan in Hkeep.
Qed.

Lemma X8_nan_excluded_any_precision_witness :
  [S754_nan] ∉ records (RecArray ["power"] [[single_tenth]]).
Proof.
  apply (X8_nan_excluded_any_precision power_bounds single_powers ["power"]
           (RecArray ["power"] [[single_tenth]]) ["power"] [S754_nan] "power"
           sample_yields_single).
  - by eexists.
  - vm_compute. repeat constructor.
  - reflexivity.
Defined.

(** X9: the bounds are inclusive at either precision: a record whose
    bounded field equals the minimum or the maximum that the comparison
    uses (for a single-precision field the bound rounded to single
    precision, so float32(0.1) under the bound 0.1) is retained, provided
    the range is not empty and its other bounded fields are within their
    ranges. *)
Theorem X9_inclusive_as_compared bounds a single a' single' r k v_min v_max :
  filter_yields bounds (NdArr a single) (NdArr a' single') →
  r ∈ records a →
  bounds !! k = Some (v_min, v_max) →
  k ∈ dtype_names a →
  less_equal (compared single k v_min) (compared single k v_max) = true →
  equal (field (dtype_names a) k r) (compared single k v_min) = true
  ∨ equal (field (dtype_names a) k r) (compared single k v_max) = true →
  (∀ k' lo hi, k' ≠ k → bounds !! k' = Some (lo, hi) → k' ∈ dtype_names a →
     in_range (compared single k' lo) (compared single k' hi)
              (field (dtype_names a) k' r) = true) →
  r ∈ records a'.
Proof.
  intros (a0 & s0 & [= -> ->] & [= -> ->])%filter_yields_retained
         Hr Hb Hk Hle Heq Hother.
  apply retained_records. split; [exact Hr|].
  intros k' [lo hi] Hb' Hk'. simpl.
  destruct (decide (k' = k)) as [->|Hne].
  - rewrite Hb in Hb'. injection Hb' as <- <-.
    destruct Heq; [by apply in_range_at_min | by apply in_range_at_max].
  - by apply Hother.
Qed.

Lemma X9_inclusive_as_compared_witness :
  [single_tenth] ∈ records (RecArray ["power"] [[single_tenth]]).
Proof.
  apply (X9_inclusive_as_compared power_bounds single_powers ["power"]
           (RecArray ["power"] [[single_tenth]]) ["power"] [single_tenth]
           "power" (S754_zero false) tenth sample_yields_single).
  - vm_compute. repeat constructor.
  - reflexivity.
  - vm_compute. repeat constructor.
  - vm_compute. reflexivity.
  - right. vm_compute. reflexivity.
  - intros k' lo hi Hne Hb. exfalso.
    unfold power_bounds in Hb. by rewrite lookup_singleton_ne in Hb.
Defined.

End FilterExtras.

(** ** The series handed on by the filter (lines 83-84, 112-115, 133-145) *)

Section PipelineExtras.
Import Py Np Filter FilterSpec Pipeline Runs Samples MoreSamples.

Lemma bins_at_series_on h bins arrays : bins_at h bins arrays → series_on h bins.
Proof.
  induction 1 as [|bin [[E se] [F sf]] bins arrays [He Hf] _ IH];
    constructor; [|exact IH].
  by exists E, se, F, sf.
Qed.

(** After the filter, the outputs hold the retained records of the arrays
    of their bins. *)
Lemma filtered_bins_at bounds h h' bins outs arrays :
  Forall2 (filtered_at bounds h h') bins outs →
  bins_at h bins arrays →
  bins_at h' outs
    (map (λ EF, ((retained bounds EF.1.2 EF.1.1, EF.1.2),
                 (retained bounds EF.2.2 EF.2.1, EF.2.2))) arrays).
Proof.
  intros Hf. revert arrays.
  induction Hf as [|bin out bins outs (E & se & F & sf & He & HF & Hoe & Hof) _ IH];
    intros arrays Hb;
    inversion Hb as [|? [[E' se'] [F' sf']] ? arrays' [He' HF'] Hb'];
    subst; [constructor|].
  simpl in *. rewrite He in He'. rewrite HF in HF'.
  injection He' as <- <-. injection HF' as <- <-.
  constructor; [by split | by apply IH].
Qed.

Lemma sample_bins_at :
  bins_at sample_heap (zip [0] [1]) [((sample_events, []), (sample_flashes, []))].
Proof. repeat constructor. Qed.

Lemma located_bins_at :
  bins_at sample_located_heap (zip [0] [1])
    [((sample_events, []), (sample_located, ["area"]))].
Proof. repeat constructor. Qed.

(** X10: lines 83-84. With no common bin the unpacking raises ValueError;
    with at least one, the two filtered series come out with one entry per
    common bin each, entry by entry the arrays of the retained records. *)
Theorem X10_filtered_series bounds h events_series flashes_series :
  series_on h (zip events_series flashes_series) →
  (events_series = [] ∨ flashes_series = [] →
     filtered_series events_series flashes_series bounds h = Raise ValueError)
  ∧ (events_series ≠ [] → flashes_series ≠ [] →
     ∃ events_filt flashes_filt h',
       filtered_series events_series flashes_series bounds h
       = Ok ((events_filt, flashes_filt), h')
       ∧ length events_filt = length events_series `min` length flashes_series
       ∧ length flashes_filt = length events_filt
       ∧ Forall2 (filtered_at bounds h h')
           (zip events_series flashes_series) (zip events_filt flashes_filt)).
Proof.
  intros Hs.
  destruct (filtered_series_run bounds h _ _ Hs) as (outs & h' & _ & Hf & Hrun).
  pose proof (Forall2_length _ _ _ Hf) as Hlen.
  split.
  - intros Hnil%zip_nil_iff. rewrite Hnil in Hlen.
    destruct outs; [exact Hrun | discriminate].
  - intros He Hl.
    destruct outs as [|o outs].
    { simpl in Hlen. apply nil_length_inv, zip_nil_iff in Hlen. tauto. }
    exists ((o :: outs).*1), ((o :: outs).*2), h'.
    split; [exact Hrun|]. rewrite zip_fst_snd, !length_fmap.
    split; [|split; [reflexivity | exact Hf]].
    rewrite <- Hlen. apply length_zip_with.
Qed.

Lemma X10_filtered_series_witness :
  filtered_series [] [1] bounds sample_heap = Raise ValueError
  ∧ ∃ events_filt flashes_filt h',
      filtered_series [0] [1] bounds sample_heap
      = Ok ((events_filt, flashes_filt), h')
      ∧ length events_filt = 1.
Proof.
  split.
  - apply (X10_filtered_series bounds sample_heap [] [1]); [constructor|].
    by left.
  - destruct (X10_filtered_series bounds sample_heap [0] [1]
                (bins_at_series_on _ _ _ sample_bins_at))
      as [_ Hok].
    destruct Hok as (ef & ff & h' & Hrun & Hlen & _);
      [discriminate | discriminate |].
    exists ef, ff, h'. split; [exact Hrun | exact Hlen].
Defined.

End PipelineExtras.

Section SummaryExtras.
Import Py Np Filter FilterSpec Pipeline Summary Runs Samples MoreSamples.

Context {size_stat per_flash profile : Type}.
Context (flash_size_stats : recarray → size_stat).
Context (process_events_flashes :
           recarray → recarray → per_flash * profile * profile).

Local Abbreviation summary_bin' :=
  (summary_bin size_stat per_flash profile flash_size_stats
     process_events_flashes).
Local Abbreviation summary_of' :=
  (summary_of size_stat per_flash profile flash_size_stats
     process_events_flashes).
Local Abbreviation filtered_summary' :=
  (filtered_summary size_stat per_flash profile flash_size_stats
     process_events_flashes).

Lemma summary_bin_ok h ev fl E se F sf :
  h !! ev = Some (NdArr E se) → h !! fl = Some (NdArr F sf) →
  summary_bin' (ev, fl) h = Ok (summary_of' E F, h).
Proof.
  intros He HF. unfold summary_bin, summary_of.
  rewrite run_bind, (as_rec_ok _ _ _ _ He).
  rewrite run_bind, (as_rec_ok _ _ _ _ HF).
  by destruct (process_events_flashes E F) as [[pf ic] cg].
Qed.

Lemma summary_run h bins arrays :
  bins_at h bins arrays →
  generate bins summary_bin' h
  = Ok (map (λ EF, summary_of' EF.1.1 EF.2.1) arrays, h).
Proof.
  induction 1 as [|[ev fl] [[E se] [F sf]] bins arrays [He HF] _ IH];
    [reflexivity|].
  simpl in He, HF. cbn [generate].
  rewrite run_bind, (summary_bin_ok _ _ _ _ _ _ _ He HF).
  by rewrite run_bind, IH.
Qed.

(** X11: lines 83-84 and 143-145. The summaries are computed bin by bin
    from the filtered arrays, the events of a bin with the flashes of the
    same bin: the statistics from the retained flashes, the two profiles
    from the retained events and flashes; the three sequences have one
    entry per bin, in the order of the bins; and with no bin the script
    stops with a ValueError. *)
Theorem X11_summaries_of_filtered bounds h events_series flashes_series arrays :
  bins_at h (zip events_series flashes_series) arrays →
  (arrays = [] →
     filtered_summary' events_series flashes_series bounds h
     = Raise ValueError)
  ∧ (arrays ≠ [] →
     ∃ h',
       filtered_summary' events_series flashes_series bounds h
       = Ok ((map (λ EF, flash_size_stats (retained bounds EF.2.2 EF.2.1))
                  arrays,
              map (λ EF, (process_events_flashes
                            (retained bounds EF.1.2 EF.1.1)
                            (retained bounds EF.2.2 EF.2.1)).1.2) arrays,
              map (λ EF, (process_events_flashes
                            (retained bounds EF.1.2 EF.1.1)
                            (retained bounds EF.2.2 EF.2.1)).2) arrays),
             h')).
Proof.
  intros Hb.
  pose proof (bins_at_series_on _ _ _ Hb) as Hs.
  destruct (filtered_series_run bounds h _ _ Hs) as (outs & h' & _ & Hf & Hrun).
  pose proof (filtered_bins_at _ _ _ _ _ _ Hf Hb) as Hout.
  pose proof (Forall2_length _ _ _ Hf) as Hlen1.
  pose proof (Forall2_length _ _ _ Hb) as Hlen2.
  unfold filtered_summary. rewrite run_bind, Hrun. split.
  - intros ->. simpl in Hlen2. rewrite Hlen2 in Hlen1. by destruct outs.
  - intros Hne. destruct outs as [|o outs].
    { destruct arrays; [done|]. simpl in Hlen2. rewrite Hlen2 in Hlen1.
      discriminate. }
    exists h'. cbn [fst snd]. unfold summary_series.
    rewrite run_bind. unfold gen_flash_summary_time_series.
    rewrite zip_fst_snd, (summary_run _ _ _ Hout), run_lift.
    destruct arrays as [|EF arrays]; [done|].
    unfold unpack_summaries. cbn [map]. unfold summary_of. cbn [fst snd].
    rewrite !map_map. reflexivity.
Qed.

End SummaryExtras.

Section SummaryWitness.
Import Py Np Filter FilterSpec Pipeline Summary Runs Samples MoreSamples.

Lemma X11_summaries_of_filtered_witness :
  ∃ h',
    filtered_summary nat unit nat (λ F, length (records F))
      (λ E F, (tt, length (records E), length (records F)))
      [0] [1] bounds sample_heap
    = Ok (([2], [2], [2]), h').
Proof.
  destruct (X11_summaries_of_filtered (λ F, length (records F))
              (λ E F, (tt, length (records E), length (records F)))
              bounds sample_heap [0] [1]
              [((sample_events, []), (sample_flashes, []))] sample_bins_at)
    as [_ Hok].
  destruct Hok as [h' Hrun]; [discriminate|].
  exists h'. exact Hrun.
Defined.

End SummaryWitness.

(** ** The flash centroid plotter (lines 89-115) *)

Section PlotterExtras.
Import Py Np Filter FilterSpec Pipeline Plotter Runs Samples MoreSamples.

Lemma getitem_ok a k : k ∈ dtype_names a → getitem a k = Ok (column k a).
Proof. intros H. unfold getitem. by rewrite bool_decide_eq_true_2. Qed.

Lemma plot_ok_fields self a :
  has_plot_fields a →
  plot self a
  = Ok (FlashCentroidPlotter (t_sec_min self) (t_sec_max self)
          (match colorbar self with
           | None => Some (scatter_of (t_sec_min self) (t_sec_max self) a)
           | Some c => Some c
           end)
          (scatters self ++ [scatter_of (t_sec_min self) (t_sec_max self) a])).
Proof.
  unfold has_plot_fields, plot_fields. intros H.
  apply Forall_cons in H as [H1 H]. apply Forall_cons in H as [H2 H].
  apply Forall_cons in H as [H3 _].
  unfold plot. by rewrite !getitem_ok.
Qed.

Lemma plot_raises self a : ¬ has_plot_fields a → plot self a = Raise ValueError.
Proof.
  intros H. unfold plot, getitem.
  destruct (bool_decide ("init_lon" ∈ dtype_names a)) eqn:H1; [|reflexivity].
  destruct (bool_decide ("init_lat" ∈ dtype_names a)) eqn:H2; [|reflexivity].
  destruct (bool_decide ("start" ∈ dtype_names a)) eqn:H3; [|reflexivity].
  exfalso. apply H. apply bool_decide_eq_true_1 in H1, H2, H3.
  unfold has_plot_fields, plot_fields. by repeat constructor.
Qed.

Lemma plot_series_fields self flashes_series :
  Forall has_plot_fields flashes_series →
  plot_series self flashes_series
  = Ok (FlashCentroidPlotter (t_sec_min self) (t_sec_max self)
          (match colorbar self with
           | None => head (map (scatter_of (t_sec_min self) (t_sec_max self))
                               flashes_series)
           | Some c => Some c
           end)
          (scatters self
           ++ map (scatter_of (t_sec_min self) (t_sec_max self))
                  flashes_series)).
Proof.
  intros H. revert self.
  induction H as [|a rest Ha _ IH]; intros self.
  - simpl. rewrite app_nil_r. by destruct self as [? ? [c|] ?].
  - cbn [plot_series]. rewrite (plot_ok_fields _ _ Ha), IH. simpl.
    rewrite <- app_assoc. by destruct (colorbar self).
Qed.

Lemma plot_series_raises self flashes_series :
  ¬ Forall has_plot_fields flashes_series →
  plot_series self flashes_series = Raise ValueError.
Proof.
  revert self. induction flashes_series as [|a rest IH]; intros self Hn.
  - exfalso. apply Hn. constructor.
  - cbn [plot_series]. destruct (decide (has_plot_fields a)) as [Ha|Ha].
    + rewrite (plot_ok_fields _ _ Ha). apply IH. intros Hr. apply Hn.
      by constructor.
    + by rewrite (plot_raises _ _ Ha).
Qed.

(** X12: the plotting loop over arrays that all have the fields init_lon,
    init_lat and start draws one scatter per bin, in the order of the
    bins, each with the three columns of its bin and the colour limits of
    the plotter; the colour bar is made once, from the first scatter drawn
    by the plotter, and the limits never change. *)
Theorem X12_one_scatter_per_bin self flashes_series :
  Forall has_plot_fields flashes_series →
  ∃ p,
    plot_series self flashes_series = Ok p
    ∧ scatters p
      = scatters self
        ++ map (scatter_of (t_sec_min self) (t_sec_max self)) flashes_series
    ∧ colorbar p
      = match colorbar self with
        | None => head (map (scatter_of (t_sec_min self) (t_sec_max self))
                            flashes_series)
        | Some c => Some c
        end
    ∧ t_sec_min p = t_sec_min self
    ∧ t_sec_max p = t_sec_max self.
Proof.
  intros H. eexists. split; [by apply plot_series_fields|]. by repeat split.
Qed.

Lemma sample_located_fields : has_plot_fields sample_located.
Proof. unfold has_plot_fields. vm_compute. repeat constructor. Qed.

Lemma X12_one_scatter_per_bin_witness :
  ∃ p, plot_series (init (f64 0 0) (f64 3600 0)) [sample_located; sample_located]
       = Ok p
       ∧ length (scatters p) = 2
       ∧ colorbar p = Some (scatter_of (f64 0 0) (f64 3600 0) sample_located).
Proof.
  destruct (X12_one_scatter_per_bin (init (f64 0 0) (f64 3600 0))
              [sample_located; sample_located])
    as (p & Hrun & Hs & Hc & _).
  - repeat constructor; exact sample_located_fields.
  - exists p. split; [exact Hrun|]. rewrite Hs, Hc. by split.
Defined.

(** X13: the plotting loop fails exactly when some array of the series
    lacks one of the three fields, and then with a ValueError; otherwise
    it returns. *)
Theorem X13_missing_field_raises self flashes_series :
  (¬ Forall has_plot_fields flashes_series
   ↔ plot_series self flashes_series = Raise ValueError)
  ∧ (Forall has_plot_fields flashes_series
     ↔ ∃ p, plot_series self flashes_series = Ok p).
Proof.
  split; split.
  - apply plot_series_raises.
  - intros Hr Hall. rewrite (plot_series_fields self flashes_series Hall) in Hr.
    discriminate.
  - intros Hall. eexists. by apply plot_series_fields.
  - intros [p Hp]. destruct (decide (Forall has_plot_fields flashes_series))
      as [H|H]; [exact H|].
    rewrite (plot_series_raises _ _ H) in Hp. discriminate.
Qed.

Lemma X13_missing_field_raises_witness :
  plot_series (init (f64 0 0) (f64 3600 0)) [sample_located; sample_flashes]
  = Raise ValueError.
Proof.
  apply (X13_missing_field_raises (init (f64 0 0) (f64 3600 0))
           [sample_located; sample_flashes]).
  intros H. apply Forall_cons in H as [_ H]. apply Forall_cons in H as [H _].
  unfold has_plot_fields, plot_fields in H. apply Forall_cons in H as [H _].
  vm_compute in H. repeat (apply elem_of_cons in H as [H|H]; [discriminate|]).
  by apply elem_of_nil in H.
Defined.

Lemma column_retained_sublist bounds single k a :
  column k (retained bounds single a) `sublist_of` column k a.
Proof.
  unfold column, retained. simpl. apply (fmap_sublist _), sublist_filter.
Qed.

(** X14: lines 83-84 and 112-115. When every source flash array has the
    three fields, the plot of the filtered series succeeds and holds one
    scatter per bin, drawn from the retained flashes of that bin: the
    points of each scatter are points of the source array, in their
    order, and a flash that the filter removed is not drawn. *)
Theorem X14_plot_filtered bounds h events_series flashes_series arrays
    t_min t_max :
  bins_at h (zip events_series flashes_series) arrays →
  arrays ≠ [] →
  Forall (λ EF, has_plot_fields EF.2.1) arrays →
  ∃ p h',
    plot_filtered events_series flashes_series bounds t_min t_max h
    = Ok (p, h')
    ∧ scatters p
      = map (λ EF, scatter_of t_min t_max (retained bounds EF.2.2 EF.2.1))
            arrays
    ∧ colorbar p = head (scatters p)
    ∧ Forall2 (λ s EF,
                 scatter_x s `sublist_of` column "init_lon" EF.2.1
                 ∧ scatter_y s `sublist_of` column "init_lat" EF.2.1
                 ∧ scatter_c s `sublist_of` column "start" EF.2.1
                 ∧ length (scatter_x s)
                   = length (records (retained bounds EF.2.2 EF.2.1)))
              (scatters p) arrays.
Proof.
  intros Hb Hne Hall.
  pose proof (bins_at_series_on _ _ _ Hb) as Hs.
  destruct (filtered_series_run bounds h _ _ Hs) as (outs & h' & _ & Hf & Hrun).
  pose proof (filtered_bins_at _ _ _ _ _ _ Hf Hb) as Hout.
  pose proof (Forall2_length _ _ _ Hout) as Hlen.
  rewrite length_map in Hlen.
  destruct outs as [|o outs]; [by destruct arrays|].
  set (flashes := map (λ EF, retained bounds EF.2.2 EF.2.1) arrays).
  assert (Hder : deref (o :: outs).*2 h' = Ok (flashes, h')).
  { apply deref_ok. unfold flashes. clear -Hout.
    remember (o :: outs) as outs' eqn:E. clear E. revert outs' Hout.
    induction arrays as [|EF arrays IH]; intros outs' Hout;
      inversion Hout as [|? ? ? ? [_ HF] Hrest]; subst; constructor.
    - by eexists.
    - by apply IH. }
  assert (Hfields : Forall has_plot_fields flashes).
  { unfold flashes. apply Forall_fmap. eapply Forall_impl; [exact Hall|].
    by intros EF H. }
  eexists _, h'. split.
  { unfold plot_filtered. rewrite run_bind, Hrun. cbn [snd].
    rewrite run_bind, Hder, run_lift.
    by rewrite (plot_series_fields _ _ Hfields). }
  cbn [scatters colorbar init app t_sec_min t_sec_max].
  unfold flashes. rewrite map_map. split; [reflexivity|].
  split; [reflexivity|].
  apply Forall2_fmap_l, Forall_Forall2_diag, Forall_forall.
  intros EF _. simpl. repeat split; try apply column_retained_sublist.
  unfold column. by rewrite length_map.
Qed.

Lemma X14_plot_filtered_witness :
  ∃ p h',
    plot_filtered [0] [1] bounds (f64 0 0) (f64 3600 0) sample_located_heap
    = Ok (p, h')
    ∧ scatters p = [scatter_of (f64 0 0) (f64 3600 0) sample_located_filt].
Proof.
  destruct (X14_plot_filtered bounds sample_located_heap [0] [1]
              [((sample_events, []), (sample_located, ["area"]))]
              (f64 0 0) (f64 3600 0) located_bins_at)
    as (p & h' & Hrun & Hs & _).
  - discriminate.
  - repeat constructor; exact sample_located_fields.
  - exists p, h'. split; [exact Hrun|]. rewrite Hs. vm_compute. reflexivity.
Defined.

End PlotterExtras.

(** ** The grid-subset reporting pass (lines 280-329 and 361-365) *)

Section GridExtras.
Import Py Np Grid.

Context (t_start t_end basedate : Z).
Context (isoformat str_datetime : Z → string) (str_float : float → string).
Context (total_seconds : Z → float) (in_lasso : cell → bool).
Context (reduce_max reduce_sum : list float → float).
Context (percentile : list float → Z → float).

Local Abbreviation row' :=
  (row isoformat str_datetime str_float in_lasso reduce_max reduce_sum percentile).
Local Abbreviation plot' :=
  (plot_lasso_grid_subset basedate isoformat str_datetime str_float
     total_seconds in_lasso reduce_max reduce_sum percentile).
Local Abbreviation loop' :=
  (grid_loop t_start t_end basedate isoformat str_datetime str_float
     total_seconds in_lasso reduce_max reduce_sum percentile).
Local Abbreviation report' :=
  (grid_report t_start t_end basedate isoformat str_datetime str_float
     total_seconds in_lasso reduce_max reduce_sum percentile).
Local Abbreviation cells' := (cells basedate total_seconds).
Local Abbreviation processed := (λ s : step, in_window t_start t_end (step_t s)).
Local Abbreviation well_shaped :=
  (λ s : step, shapes_agree (step_xedge s) (step_yedge s) (step_data s) = true).










(** X16: the cells that enter the percentiles are exactly the cells
    inside the lasso whose count is greater than zero, in the order of the
    grid; a cell with a NaN count is never among them, and they are a part
    of the cells over which the maximum and the sum are taken, which keep
    the zero counts inside the lasso. *)
Theorem X16_nonzero_subset (a : list cell) :
  (∀ c, c ∈ nonzero_filtered in_lasso a ↔
        c ∈ a ∧ in_lasso c = true ∧ greater (cell_value c) zero = true)
  ∧ (∀ c, c ∈ filtered in_lasso a ↔ c ∈ a ∧ in_lasso c = true)
  ∧ (∀ c, isnan (cell_value c) = true → c ∉ nonzero_filtered in_lasso a)
  ∧ nonzero_filtered in_lasso a `sublist_of` filtered in_lasso a
  ∧ filtered in_lasso a `sublist_of` a.
Proof.
  assert (Hnz : nonzero_filtered in_lasso a
                = List.filter (λ c, in_lasso c && greater (cell_value c) zero) a).
  { unfold nonzero_filtered, filter_mask.
    by rewrite zip_with_map_same, mask_select_map. }
  assert (Hf : filtered in_lasso a = List.filter in_lasso a).
  { unfold filtered, filter_mask. by rewrite mask_select_map. }
  assert (Hin : ∀ c, c ∈ nonzero_filtered in_lasso a ↔
                     c ∈ a ∧ in_lasso c = true
                     ∧ greater (cell_value c) zero = true).
  { intros c. rewrite Hnz, !list_elem_of_In, filter_In, andb_true_iff.
    tauto. }
  split; [exact Hin|]. split; [|split; [|split]].
  - intros c. rewrite Hf, !list_elem_of_In, filter_In. tauto.
  - intros c Hnan [_ [_ Hgt]]%Hin. unfold greater in Hgt.
    destruct (cell_value c); try discriminate Hnan. discriminate Hgt.
  - rewrite Hnz, Hf. clear. induction a as [|c a IH]; [constructor|].
    simpl. destruct (in_lasso c); simpl; [|exact IH].
    destruct (greater (cell_value c) zero); by constructor.
  - rewrite Hf. clear. induction a as [|c a IH]; [constructor|].
    simpl. destruct (in_lasso c); by constructor.
Qed.

(** X17: a processed step whose data has not the shape of its meshes
    stops the whole report with an AssertionError, the steps before it
    being well shaped; a step outside the window is passed over whatever
    its shape. *)
Theorem X17_shape_mismatch_aborts (before after : list step) (s : step) :
  (∀ s', s' ∈ before → processed s' = true → well_shaped s') →
  processed s = true →
  shapes_agree (step_xedge s) (step_yedge s) (step_data s) = false →
  report' (before ++ s :: after) = Raise AssertionError
  ∧ (∀ s' GC datalog, processed s' = false →
       loop' (s' :: GC) datalog = loop' GC datalog).
Proof.
  intros Hwf Hin Hbad. split.
  - unfold grid_report. generalize [datalog_header].
    induction before as [|s0 before IH]; intros datalog.
    + cbn [app grid_loop]. rewrite Hin.
      unfold plot_lasso_grid_subset. by rewrite Hbad.
    + cbn [app grid_loop].
      assert (Hwf' : ∀ s', s' ∈ before → processed s' = true → well_shaped s')
        by (intros s' Hs'; apply Hwf; by right).
      destruct (in_window t_start t_end (step_t s0)) eqn:Hin0.
      * destruct (plot_ok basedate isoformat str_datetime str_float
                    total_seconds in_lasso reduce_max reduce_sum percentile
                    datalog (step_t s0) (step_xedge s0) (step_yedge s0)
                    (step_data s0)) as (fields & -> & _).
        { apply Hwf; [by left | exact Hin0]. }
        by apply IH.
      * by apply IH.
  - intros s' GC datalog Hout. cbn [grid_loop]. by rewrite Hout.
Qed.

(** X18: the row of a step with at least one positive count inside the
    lasso: the time in ISO format, the maximum and the sum over all cells
    inside the lasso, zero counts included, and the 5th, 50th and 95th
    percentiles of the positive counts inside the lasso only; the maximum is
    taken over a non-empty array, so the row is always produced. *)
Theorem X18_row_with_counts (t : Z) (a : list cell) :
  nonzero_filtered in_lasso a ≠ [] →
  row' t a
  = Ok [ isoformat t;
         str_float (reduce_max (map cell_value (filtered in_lasso a)));
         str_float (reduce_sum (map cell_value (filtered in_lasso a)));
         str_float (percentile
                      (map cell_value (nonzero_filtered in_lasso a)) 5);
         str_float (percentile
                      (map cell_value (nonzero_filtered in_lasso a)) 50);
         str_float (percentile
                      (map cell_value (nonzero_filtered in_lasso a)) 95) ].
Proof.
  intros Hnz. pose proof (filtered_nonempty in_lasso a Hnz) as Hf.
  unfold row, amax, scoreatpercentile.
  destruct (nonzero_filtered in_lasso a) as [|c nz]; [done|].
  destruct (filtered in_lasso a) as [|c' f]; [done|]. reflexivity.
Qed.

End GridExtras.

Section GridExtrasWitnesses.
Import Py Np Grid Samples MoreSamples.


Lemma X18_row_with_counts_witness :
  row sample_isoformat sample_str_datetime sample_str_float sample_in_lasso
    sample_reduce sample_reduce sample_percentile 5
    (cells 0 sample_total_seconds 5 sample_xedge sample_yedge sample_grid)
  = Ok ["T5"; "x"; "x"; "x"; "x"; "x"].
Proof.
  apply (X18_row_with_counts sample_isoformat sample_str_datetime
           sample_str_float sample_in_lasso sample_reduce sample_reduce
           sample_percentile 5
           (cells 0 sample_total_seconds 5 sample_xedge sample_yedge
              sample_grid)).
  vm_compute. discriminate.
Defined.

Lemma X17_shape_mismatch_aborts_witness :
  sample_grid_report
    [sample_step 5 (f64 3 0); Step 7 sample_xedge sample_yedge
                                (NdArray2 (1, 1) [f64 3 0])]
  = Raise AssertionError.
Proof.
  destruct (X17_shape_mismatch_aborts 0 10 0 sample_isoformat
              sample_str_datetime sample_str_float sample_total_seconds
              sample_in_lasso sample_reduce sample_reduce sample_percentile
              [sample_step 5 (f64 3 0)] []
              (Step 7 sample_xedge sample_yedge (NdArray2 (1, 1) [f64 3 0])))
    as [Habort _].
  - intros s' ->%list_elem_of_singleton _. vm_compute. reflexivity.
  - reflexivity.
  - vm_compute. reflexivity.
  - exact Habort.
Defined.

End GridExtrasWitnesses.

(** ** The statistics writer (lines 157-169) *)

Section SizeStatsExtras.
Import Py SizeStats.

Context {value : Type} (format : value → string).

Lemma stat_vals_agree (stats1 stats2 : gmap string value) (keys : list string) :
  (∀ k, k ∈ keys → stats1 !! k = stats2 !! k) →
  stat_vals value stats1 keys = stat_vals value stats2 keys.
Proof.
  induction keys as [|k keys IH]; intros H; [reflexivity|].
  cbn [stat_vals]. unfold getitem. rewrite (H k) by (by left).
  rewrite IH; [reflexivity|]. intros k' Hk'. apply H. by right.
Qed.

(** X19: the statistics file depends on the nine named fields of each
    record only: records that agree on these fields give the same file,
    whatever further fields they carry, and a failure of the one is a
    failure of the other. *)
Theorem X19_other_fields_ignored
    (size_stats1 size_stats2 : list (gmap string value)) :
  Forall2 (λ stats1 stats2, ∀ k, k ∈ stat_keys → stats1 !! k = stats2 !! k)
          size_stats1 size_stats2 →
  write_size_stat_data value format size_stats1
  = write_size_stat_data value format size_stats2.
Proof.
  intros H. unfold write_size_stat_data.
  assert (Hrows : write_rows value format size_stats1
                  = write_rows value format size_stats2).
  { induction H as [|stats1 stats2 rest1 rest2 Hk _ IH]; [reflexivity|].
    cbn [write_rows]. by rewrite (stat_vals_agree _ _ _ Hk), IH. }
  by rewrite Hrows.
Qed.

End SizeStatsExtras.

Section SizeStatsExtrasWitness.
Import Py SizeStats Samples MoreSamples.

Lemma X19_other_fields_ignored_witness :
  write_size_stat_data string id [sample_stats_more]
  = write_size_stat_data string id [sample_stats].
Proof.
  apply (X19_other_fields_ignored id [sample_stats_more] [sample_stats]).
  repeat constructor. intros k Hk. unfold stat_keys in Hk.
  repeat (apply elem_of_cons in Hk; destruct Hk as [->|Hk]; [reflexivity|]).
  by apply elem_of_nil in Hk.
Defined.

End SizeStatsExtrasWitness.
